(** * Phantom-VRM: the TTS engine abstraction and its audio cache

    A shallow embedding of the speech subsystem, followed by the properties of
    the specification that concern it.  The sources are

    - [src/src/tts/index.js]: the dispatcher, the custom and the Disabled
      adapter ("index.js" below);
    - [src/src/tts/piper.js] and [src/src/tts/voicevox.js];
    - [src/unnamed/part_001]: the module [./api] with the four hosted
      adapters and [getAudioDuration] ("api.js" below);
    - the server module, third in [src/src/config.js] (lines 307-692), with
      the routes [/api/speak], [/api/tts], [/api/expression], [/api/pose],
      [/api/background] and [/api/message] and [queueMessage] ("server.js"
      below; line numbers are those of [src/src/config.js]);
    - the configuration module and the loopback output, first and second in
      [src/src/config.js] (lines 1-123 and 124-306; "config.js" and
      "loopback.js" below, with the line numbers of [src/src/config.js]);
    - [src/bin/vrm-avatar.js]: the argument loop of the command line.

    Conventions.
    - A JavaScript number is an IEEE 754 binary64 value, taken from the
      Standard Library's executable specification [SpecFloat].
    - A JavaScript string is a [string]; one character stands for one UTF-16
      code unit, so [String.length] is the [.length] of the source.
    - [undefined] is [None] in [option json]; [null] is [JNull].
    - A promise is modelled by the way it ends.  The outside world (the
      network, spawned commands, the disk) is an explicit [oracle] argument,
      and every interaction with it is appended to a trace. *)

From Stdlib Require Import ZArith Ascii String List Bool Strings.Byte Lia SpecFloat.
From stdpp Require Import base option gmap strings.
Import ListNotations.

Set Warnings "-register-all".

Local Open Scope string_scope.
Local Open Scope Z_scope.

(** ** JavaScript numbers *)

Module Number.

Definition prec : Z := 53.
Definition emax : Z := 1024.

Abbreviation number := spec_float.

Definition of_Z (z : Z) : number := binary_normalize prec emax z 0 false.
Definition of_nat (n : nat) : number := of_Z (Z.of_nat n).

Definition div : number -> number -> number := SFdiv prec emax.
Definition mul : number -> number -> number := SFmul prec emax.
Definition leb : number -> number -> bool := SFleb.
Definition ltb : number -> number -> bool := SFltb.

Definition is_nan (x : number) : bool :=
  match x with S754_nan => true | _ => false end.

Definition is_finite (x : number) : bool :=
  match x with S754_zero _ | S754_finite _ _ _ => true | _ => false end.

Definition sign (x : number) : bool :=
  match x with
  | S754_zero s | S754_infinity s | S754_finite s _ _ => s
  | S754_nan => false
  end.

(** [Number.isInteger]. *)
Definition is_integer (x : number) : bool :=
  match x with
  | S754_zero _ => true
  | S754_finite _ m e =>
      match e with
      | Zneg p => Z.pos m mod 2 ^ Z.pos p =? 0
      | _ => true
      end
  | _ => false
  end.

(** [Math.max(a, b)]: NaN if either is NaN, and [+0] is larger than [-0]. *)
Definition Math_max (a b : number) : number :=
  match SFcompare a b with
  | None => S754_nan
  | Some Lt => b
  | Some Gt => a
  | Some Eq => match a with S754_zero true => b | _ => a end
  end.

(** The integer closest to [(-1)^s * m * 2^e], ties towards +infinity. *)
Definition nearest_integer (s : bool) (m : positive) (e : Z) : Z :=
  let n := cond_Zopp s (Z.pos m) in
  match e with
  | Zneg p => (2 * n + 2 ^ Z.pos p) / 2 ^ (Z.pos p + 1)
  | _ => n * 2 ^ e
  end.

(** [Math.round(x)]; a result of zero keeps the sign of [x]. *)
Definition Math_round (x : number) : number :=
  match x with
  | S754_finite s m e => binary_normalize prec emax (nearest_integer s m e) 0 s
  | _ => x
  end.

(** Falsy numbers: [+0], [-0] and [NaN]. *)
Definition is_falsy (x : number) : bool :=
  match x with S754_zero _ | S754_nan => true | _ => false end.

(** Neither NaN nor negative. *)
Definition nonneg (x : number) : Prop := is_nan x = false /\ sign x = false.

(** Zero, or finite with at most [T] binary digits before the point and an
    exponent of at most [E]. *)
Definition within (T E : Z) (x : number) : Prop :=
  match x with
  | S754_zero _ => True
  | S754_finite _ m e => Zdigits2 (Z.pos m) + e <= T /\ e <= E
  | _ => False
  end.

(** Structural equality, which tells [+0] from [-0]. *)
Definition same_number (x y : number) : bool :=
  match x, y with
  | S754_zero s, S754_zero s' => Bool.eqb s s'
  | S754_infinity s, S754_infinity s' => Bool.eqb s s'
  | S754_nan, S754_nan => true
  | S754_finite s m e, S754_finite s' m' e' => Bool.eqb s s' && Pos.eqb m m' && Z.eqb e e'
  | _, _ => false
  end.

End Number.

Import Number.

(** ** JSON values and property reads *)

Inductive json : Type :=
| JNull
| JBool (b : bool)
| JNum (n : number)
| JStr (s : string)
| JArr (items : list json)
| JObj (fields : list (string * json)).

(** A JavaScript value as far as this code base handles one: a JSON value or
    [undefined]. *)
Abbreviation jsval := (option json).

Definition truthy (v : jsval) : bool :=
  match v with
  | None | Some JNull => false
  | Some (JBool b) => b
  | Some (JNum n) => negb (is_falsy n)
  | Some (JStr s) => negb (String.eqb s "")
  | Some (JArr _) | Some (JObj _) => true
  end.

(** [a || b] *)
Definition js_or (a : jsval) (b : json) : json :=
  match a with
  | Some j => if truthy a then j else b
  | None => b
  end.

(** [a || b] where [b] may be [undefined] (an unset environment variable). *)
Definition js_or_undef (a b : jsval) : jsval :=
  if truthy a then a else b.

Fixpoint assoc (k : string) (fields : list (string * json)) : jsval :=
  match fields with
  | [] => None
  | (k', v) :: rest => if String.eqb k k' then Some v else assoc k rest
  end.

(** Own data property [o[k]] of a non-nullish value.  The keys read by the
    sources from configuration objects ([engine], [command], [apiKey], ...) are
    not members of any built-in prototype, so reading them off a primitive or
    an array yields [undefined]. *)
Definition get (o : json) (k : string) : jsval :=
  match o with
  | JObj fields => assoc k fields
  | _ => None
  end.

Inductive error : Type :=
| ReferenceError (ident : string)
| TypeError (detail : string)
| SyntaxError
| ApiError (provider : string) (status : Z) (body : list byte)
| AudioDataNotFound
| JsonParseFailure (cause : error)
| QueryFailed
| URIError
| SystemError (code : string).

(** Completion of a synchronous computation. *)
Inductive completion (A : Type) : Type :=
| Normal (a : A)
| Throw (e : error).
Arguments Normal {A} a.
Arguments Throw {A} e.

Definition bind {A B} (c : completion A) (k : A -> completion B) : completion B :=
  match c with
  | Normal a => k a
  | Throw e => Throw e
  end.

Notation "'let*' x ':=' c 'in' k" := (bind c (fun x => k))
  (at level 10, x name, c at level 100, k at level 200).

(** [o.k]: throws when [o] is [null] or [undefined]. *)
Definition member (o : jsval) (k : string) : completion jsval :=
  match o with
  | None | Some JNull => Throw (TypeError ("Cannot read properties of null or undefined: " ++ k))
  | Some j => Normal (get j k)
  end.

(** [o?.k] *)
Definition opt_member (o : jsval) (k : string) : jsval :=
  match o with
  | None | Some JNull => None
  | Some j => get j k
  end.

(** Whether the string conversion of a value throws, as in a template
    literal.  No JSON value is callable, so an object with an own member
    [toString] has no usable [toString], and its [valueOf], own or inherited,
    gives no primitive: the conversion throws a TypeError.  An array converts
    its elements, [null] apart, through [join]. *)
Fixpoint ToString_throws (j : json) : bool :=
  match j with
  | JArr items => existsb ToString_throws items
  | JObj fields => match assoc "toString" fields with Some _ => true | None => false end
  | _ => false
  end.

Definition not_primitive : error := TypeError "Cannot convert object to primitive value".

(** ** The runtime: library functions of Node.js the sources call

    These are not code of the repository; the development is parametric in
    them. *)

Class Runtime : Type := {
  (** [crypto.createHash('md5').update(s).digest('hex')] *)
  md5_hex : string -> string;
  (** [path.join(dir, name)] *)
  path_join : string -> string -> string;
  (** string coercion, as in [text + voice] and in template literals *)
  ToString : json -> string;
  (** [encodeURIComponent(s)]; [None] is the URIError thrown for a string with
      a lone surrogate *)
  encodeURIComponent : string -> option string;
  (** [JSON.parse(buffer.toString())]; [None] is a thrown SyntaxError *)
  JSON_parse : list byte -> option json;
  (** [Buffer.from(value, 'base64')]; [None] is a thrown TypeError *)
  Buffer_from : jsval -> option (list byte);
  (** does [new URL(...)] accept the address built on this base *)
  URL_ok : json -> bool;
  (** lines 279-282 of api.js: instantiating the configured body template *)
  instantiate_body : json -> string -> option error
}.

(** A runtime for closed examples: hashes and joined paths are spelled out
    symbolically, and no body parses as JSON. *)
Definition sample_runtime : Runtime := {|
  md5_hex := fun s => "md5(" ++ s ++ ")";
  path_join := fun d n => d ++ "/" ++ n;
  ToString := fun j => match j with JStr s => s | _ => "?" end;
  encodeURIComponent := fun s => Some s;
  JSON_parse := fun _ => None;
  Buffer_from := fun _ => None;
  URL_ok := fun _ => true;
  instantiate_body := fun _ _ => None
|}.

(** ** The outside world *)

Inductive event : Type :=
| FsProbe (path : string)     (* fs.existsSync / fs.statSync *)
| FsWrite (path : string)     (* fs.writeFileSync / fs.createWriteStream *)
| Exec (program : string)     (* child_process.execSync *)
| Http (endpoint : string).   (* http(s).request *)

Definition is_invocation (ev : event) : bool :=
  match ev with Exec _ | Http _ => true | _ => false end.

Record world : Type := {
  files : gmap string (list byte);
  trace : list event
}.

Definition emit (ev : event) (w : world) : world :=
  {| files := files w; trace := (trace w ++ [ev])%list |}.

(** What a write left behind at a path. *)
Definition leave (path : string) (content : option (list byte)) (w : world) : world :=
  match content with
  | Some bs => {| files := <[path := bs]> (files w); trace := trace w |}
  | None => w
  end.

(** [fs.existsSync(path)] *)
Definition existsSync (path : string) (w : world) : bool * world :=
  (bool_decide (is_Some (files w !! path)), emit (FsProbe path) w).

(** How the network answers one request: with an error before any response;
    with a response whose body arrives whole; with a response that breaks off
    after its headers ([received] is what arrived of the body, the [end] event
    never comes, and [e] is the error the request emits then, if it emits
    one: a reset connection does, a connection closed early does not); or
    with nothing at all. *)
Inductive http_reply : Type :=
| NetError (e : error)
| HttpResponse (status : Z) (contentType : option string) (body : list byte)
| Broken (status : Z) (contentType : option string) (received : list byte) (e : option error)
| NoResponse.

(** How a write to the disk ends: completely, or with an error that leaves
    nothing or only some bytes at the path. *)
Inductive disk_reply : Type :=
| Written
| WriteFailed (e : error) (partial : option (list byte)).

(** How [execSync] ends for a command line that does not keep to writing
    its output file: it returns, it throws, or it never returns (the line
    ignores the SIGTERM of the timeout, or ends the process that waits for
    it). *)
Inductive ending : Type :=
| Returns
| Fails (e : error)
| NeverReturns.

(** How a spawned command ends, and what it left at its output path.  The
    command is a line handed to [/bin/sh], and piper.js 51-52 puts the text
    into that line with only its double quotes escaped: a text with [$(...)],
    a backquote or a backslash before a double quote runs commands of its
    own.  [ExecRewrote]: the line did other things than writing its output
    file; [store] is the whole store afterwards. *)
Inductive exec_reply : Type :=
| Exited (output : option (list byte))
| ExecFailed (e : error) (output : option (list byte))
| ExecRewrote (how : ending) (store : gmap string (list byte)).

(** Everything the world contributes to one [synthesize] call. *)
Record oracle : Type := {
  on_exec : exec_reply;
  on_request : http_reply;
  on_second_request : http_reply;
  on_write : disk_reply
}.

(** ** Durations *)

(** The five copies of [estimateDuration] (index.js 89-92, piper.js 78-81,
    voicevox.js 170-173, api.js 363-366, server.js 687-690) are the same
    text. *)
Definition charsPerSecond : number := of_Z 12.

Definition estimateDuration (text : string) : number :=
  Math_max (of_Z 500)
    (mul (div (of_nat (String.length text)) charsPerSecond) (of_Z 1000)).

(** api.js 349-358: [existsSync], then [statSync] when the file is there. *)
Definition getAudioDuration (filePath : string) (w : world) : number * world :=
  let '(_, w') := existsSync filePath w in
  match files w !! filePath with
  | Some bs =>
      let size := of_nat (List.length bs) in
      let estimatedSeconds := div size (of_Z 16000) in
      (Math_round (mul estimatedSeconds (of_Z 1000)), emit (FsProbe filePath) w')
  | None => (of_Z 0, w')
  end.

(** ** Adapters *)

Record SynthesisResult : Type := {
  audioUrl : option string;     (* [None] is [null] *)
  duration : number
}.

(** How the promise returned by [synthesize] ends.  [Unsettled e]: the
    promise stays pending.  Either [e] was thrown inside an event listener,
    outside the promise executor, and reaches the process as an uncaught
    exception; or [e] is [incomplete], and the response never came to the
    [end] or [finish] event that would settle the promise. *)
Inductive promise : Type :=
| Resolved (r : SynthesisResult)
| Rejected (e : error)
| Unsettled (e : error).

Definition incomplete : error := SystemError "incomplete response".

(** The same for a call that [execSync] never returns from: the promise is
    not even made. *)
Definition blocked : error := SystemError "execSync does not return".

(** A promise that only [req.on('error', reject)] can still settle, after a
    response has broken off. *)
Definition broken_off (e : option error) : promise :=
  match e with
  | Some e => Rejected e
  | None => Unsettled incomplete
  end.

(** An adapter is the closure built by its constructor: the variant and the
    constants it captured. *)
Inductive adapter : Type :=
| DummyTTS
| PiperTTS (command model : json) (available : bool)
| VoicevoxTTS (baseUrl speaker pitchScale speedScale intonationScale : json)
| OpenAITTS (apiKey model voice : json)
| GoogleTTS (apiKey languageCode voiceName ssmlGender : json)
| AzureTTS (subscriptionKey region voice : json)
| GenericAPITTS (url method headers bodyTemplate audioPath audioFormat : json)
| CustomTTS (command : json).

Definition name (a : adapter) : string :=
  match a with
  | DummyTTS => "none"
  | PiperTTS _ _ _ => "piper"
  | VoicevoxTTS _ _ _ _ _ => "voicevox"
  | OpenAITTS _ _ _ => "openai"
  | GoogleTTS _ _ _ _ => "google"
  | AzureTTS _ _ _ => "azure"
  | GenericAPITTS _ _ _ _ _ _ => "generic-api"
  | CustomTTS _ => "custom"
  end.

(** Identifiers bound where [createCustomTTS] is written: the top level of
    index.js (its [require]s and function declarations), the CommonJS module
    wrapper, and the locals of the function and of [synthesize]. *)
Definition index_js_scope : list string :=
  [ "createPiperTTS"; "createVoicevoxTTS"; "createOpenAITTS"; "createGoogleTTS";
    "createAzureTTS"; "createGenericAPITTS"; "createTTSEngine"; "createCustomTTS";
    "createDummyTTS"; "estimateDuration";
    "exports"; "require"; "module"; "__filename"; "__dirname";
    "config"; "execSync"; "text"; "outputDir"; "hash"; "outputFile"; "cmd" ].

(** The same for piper.js, which does import [path]. *)
Definition piper_js_scope : list string :=
  [ "execSync"; "path"; "fs"; "crypto"; "createPiperTTS"; "estimateDuration";
    "exports"; "require"; "module"; "__filename"; "__dirname";
    "config"; "command"; "model"; "available"; "text"; "outputDir"; "hash";
    "outputFile"; "escapedText" ].

(** Names every module sees without importing them. *)
Definition node_globals : list string :=
  [ "console"; "process"; "Buffer"; "Math"; "JSON"; "Promise"; "Error"; "URL";
    "encodeURIComponent"; "setTimeout"; "globalThis" ].

Definition bound (scope : list string) (ident : string) : bool :=
  existsb (String.eqb ident) (scope ++ node_globals)%list.

(** Evaluating an identifier. *)
Definition resolve (scope : list string) (ident : string) : completion unit :=
  if bound scope ident then Normal tt else Throw (ReferenceError ident).

Fixpoint includes (needle hay : string) : bool :=
  String.prefix needle hay ||
  match hay with
  | EmptyString => false
  | String _ rest => includes needle rest
  end.

(** [s.split('.')] *)
Fixpoint split_dots (acc s : string) : list string :=
  match s with
  | EmptyString => [acc]
  | String c rest =>
      if Ascii.eqb c "."%char then acc :: split_dots "" rest
      else split_dots (acc ++ String c "") rest
  end.

Section Adapters.
Context {rt : Runtime}.

Definition audio_url (hash ext : string) : string := "/audio/" ++ hash ++ "." ++ ext.

(** index.js 74-84 and api.js 368-378 *)
Definition synthesize_dummy (text : string) (w : world) : promise * world :=
  (Resolved {| audioUrl := None; duration := estimateDuration text |}, w).

(** The outcome of [execSync] for a command line that is to write to
    [outputFile]; [None]: it never returns. *)
Definition execSync (program outputFile : string) (r : exec_reply) (w : world)
  : option (completion unit) * world :=
  let w := emit (Exec program) w in
  match r with
  | Exited out => (Some (Normal tt), leave outputFile out w)
  | ExecFailed e out => (Some (Throw e), leave outputFile out w)
  | ExecRewrote how store =>
      (match how with
       | Returns => Some (Normal tt)
       | Fails e => Some (Throw e)
       | NeverReturns => None
       end,
       {| files := store; trace := trace w |})
  end.

(** piper.js 29-71 *)
Definition synthesize_piper (available : bool) (text outputDir : string)
    (o : oracle) (w : world) : promise * world :=
  let hash := md5_hex text in
  let outputFile := path_join outputDir (hash ++ ".wav") in
  let fallback := Resolved {| audioUrl := None; duration := estimateDuration text |} in
  let '(cached, w) := existsSync outputFile w in
  if cached then
    (Resolved {| audioUrl := Some (audio_url hash "wav");
                 duration := estimateDuration text |}, w)
  else if negb available then (fallback, w)
  else
    let '(c, w) := execSync "piper" outputFile (on_exec o) w in
    match c with
    | Some (Normal _) =>
        let '(produced, w) := existsSync outputFile w in
        if produced then
          (Resolved {| audioUrl := Some (audio_url hash "wav");
                       duration := estimateDuration text |}, w)
        else (fallback, w)
    | Some (Throw _) => (fallback, w)
    | None => (Unsettled blocked, w)
    end.

(** index.js 55-67.  [path] is evaluated in the scope of index.js. *)
Definition synthesize_custom (text outputDir : string) (o : oracle) (w : world)
  : promise * world :=
  let hash := md5_hex text in
  match resolve index_js_scope "path" with
  | Throw e => (Rejected e, w)
  | Normal _ =>
      let outputFile := path_join outputDir (hash ++ ".wav") in
      let '(c, w) := execSync "custom" outputFile (on_exec o) w in
      match c with
      | Some (Throw e) => (Rejected e, w)
      | Some (Normal _) =>
          (Resolved {| audioUrl := Some (audio_url hash "wav");
                       duration := estimateDuration text |}, w)
      | None => (Unsettled blocked, w)
      end
  end.

(** [fs.writeFileSync(path, bytes)] *)
Definition writeFileSync (path : string) (bytes : list byte) (d : disk_reply) (w : world)
  : completion unit * world :=
  let w := emit (FsWrite path) w in
  match d with
  | Written => (Normal tt, leave path (Some bytes) w)
  | WriteFailed e partial => (Throw e, leave path partial w)
  end.

(** [res.pipe(fs.createWriteStream(outputFile))] with its [finish] and
    [error] listeners, as written in the OpenAI and Azure adapters. *)
Definition pipe_to_file (outputFile url : string) (body : list byte) (d : disk_reply)
    (w : world) : promise * world :=
  let w := emit (FsWrite outputFile) w in
  match d with
  | Written =>
      let w := leave outputFile (Some body) w in
      let '(dur, w) := getAudioDuration outputFile w in
      (Resolved {| audioUrl := Some url; duration := dur |}, w)
  | WriteFailed e partial => (Rejected e, leave outputFile partial w)
  end.

(** The same pipe for a response that breaks off: the bytes received are
    written, and [finish] never comes. *)
Definition pipe_broken (outputFile : string) (received : list byte) (e : option error)
    (d : disk_reply) (w : world) : promise * world :=
  let w := emit (FsWrite outputFile) w in
  match d with
  | Written => (broken_off e, leave outputFile (Some received) w)
  | WriteFailed e' partial => (Rejected e', leave outputFile partial w)
  end.

(** api.js 29-91.  With a status other than 200 the promise is rejected when
    the body has come to its end. *)
Definition synthesize_openai (voice : json) (text outputDir : string)
    (o : oracle) (w : world) : promise * world :=
  let hash := md5_hex (text ++ ToString voice) in
  let outputFile := path_join outputDir (hash ++ ".mp3") in
  let '(cached, w) := existsSync outputFile w in
  if cached then
    let '(dur, w) := getAudioDuration outputFile w in
    (Resolved {| audioUrl := Some (audio_url hash "mp3"); duration := dur |}, w)
  else
    let w := emit (Http "api.openai.com") w in
    match on_request o with
    | NetError e => (Rejected e, w)
    | HttpResponse status _ body =>
        if negb (status =? 200) then (Rejected (ApiError "OpenAI" status body), w)
        else pipe_to_file outputFile (audio_url hash "mp3") body (on_write o) w
    | Broken status _ received e =>
        if negb (status =? 200) then (broken_off e, w)
        else pipe_broken outputFile received e (on_write o) w
    | NoResponse => (Unsettled incomplete, w)
    end.

(** api.js 191-242.  With a status other than 200 the promise is rejected
    at once, without waiting for the body. *)
Definition synthesize_azure (voice : json) (text outputDir : string)
    (o : oracle) (w : world) : promise * world :=
  let hash := md5_hex (text ++ ToString voice) in
  let outputFile := path_join outputDir (hash ++ ".mp3") in
  let '(cached, w) := existsSync outputFile w in
  if cached then
    let '(dur, w) := getAudioDuration outputFile w in
    (Resolved {| audioUrl := Some (audio_url hash "mp3"); duration := dur |}, w)
  else
    let w := emit (Http "tts.speech.microsoft.com") w in
    match on_request o with
    | NetError e => (Rejected e, w)
    | HttpResponse status _ body =>
        if negb (status =? 200) then (Rejected (ApiError "Azure" status []), w)
        else pipe_to_file outputFile (audio_url hash "mp3") body (on_write o) w
    | Broken status _ received e =>
        if negb (status =? 200) then (Rejected (ApiError "Azure" status []), w)
        else pipe_broken outputFile received e (on_write o) w
    | NoResponse => (Unsettled incomplete, w)
    end.

(** api.js 112-171.  The [end] listener parses and writes with no [try]: what
    it throws is not turned into a rejection. *)
Definition synthesize_google (languageCode voiceName : json) (text outputDir : string)
    (o : oracle) (w : world) : promise * world :=
  let hash :=
    md5_hex (text ++ ToString languageCode ++ ToString (js_or (Some voiceName) (JStr ""))) in
  let outputFile := path_join outputDir (hash ++ ".mp3") in
  let '(cached, w) := existsSync outputFile w in
  if cached then
    let '(dur, w) := getAudioDuration outputFile w in
    (Resolved {| audioUrl := Some (audio_url hash "mp3"); duration := dur |}, w)
  else
    let w := emit (Http "texttospeech.googleapis.com") w in
    match on_request o with
    | NetError e => (Rejected e, w)
    | HttpResponse status _ body =>
        if negb (status =? 200) then (Rejected (ApiError "Google" status body), w)
        else
          match JSON_parse body with
          | None => (Unsettled SyntaxError, w)
          | Some response =>
              match member (Some response) "audioContent" with
              | Throw e => (Unsettled e, w)
              | Normal audioContent =>
                  match Buffer_from audioContent with
                  | None => (Unsettled (TypeError "Buffer.from"), w)
                  | Some audioBuffer =>
                      let '(c, w) := writeFileSync outputFile audioBuffer (on_write o) w in
                      match c with
                      | Throw e => (Unsettled e, w)
                      | Normal _ =>
                          let '(dur, w) := getAudioDuration outputFile w in
                          (Resolved {| audioUrl := Some (audio_url hash "mp3");
                                       duration := dur |}, w)
                      end
                  end
              end
          end
    | Broken _ _ _ e => (broken_off e, w)
    | NoResponse => (Unsettled incomplete, w)
    end.

(** [audioPathInResponse.split('.').reduce((obj, key) => obj?.[key], json)];
    [split] exists on strings only.  The walk reads own members of objects;
    array elements and inherited members read as [undefined] here. *)
Definition read_audio_path (audioPath : json) (response : json) : completion jsval :=
  match audioPath with
  | JStr p => Normal (fold_left opt_member (split_dots "" p) (Some response))
  | _ => Throw (TypeError "audioPathInResponse.split is not a function")
  end.

(** api.js 265-341.  [res.statusCode] is never read. *)
Definition synthesize_generic (url bodyTemplate audioPath audioFormat : json)
    (text outputDir : string) (o : oracle) (w : world) : promise * world :=
  let hash := md5_hex (text ++ ToString url) in
  let ext := ToString audioFormat in
  let outputFile := path_join outputDir (hash ++ "." ++ ext) in
  let '(cached, w) := existsSync outputFile w in
  if cached then
    let '(dur, w) := getAudioDuration outputFile w in
    (Resolved {| audioUrl := Some (audio_url hash ext); duration := dur |}, w)
  else if negb (URL_ok url) then (Rejected (TypeError "Invalid URL"), w)
  else
    match (if truthy (Some bodyTemplate) then instantiate_body bodyTemplate text else None) with
    | Some e => (Rejected e, w)
    | None =>
        let w := emit (Http "generic-api") w in
        match on_request o with
        | NetError e => (Rejected e, w)
        | HttpResponse _ contentType body =>
            let finish (w : world) :=
              let '(dur, w) := getAudioDuration outputFile w in
              (Resolved {| audioUrl := Some (audio_url hash ext); duration := dur |}, w) in
            if includes "application/json" (default "" contentType) then
              match JSON_parse body with
              | None => (Rejected (JsonParseFailure SyntaxError), w)
              | Some response =>
                  match read_audio_path audioPath response with
                  | Throw e => (Rejected (JsonParseFailure e), w)
                  | Normal audioData =>
                      if truthy audioData then
                        match Buffer_from audioData with
                        | None => (Rejected (JsonParseFailure (TypeError "Buffer.from")), w)
                        | Some audioBuffer =>
                            let '(c, w) := writeFileSync outputFile audioBuffer (on_write o) w in
                            match c with
                            | Throw e => (Rejected (JsonParseFailure e), w)
                            | Normal _ => finish w
                            end
                        end
                      else (Rejected AudioDataNotFound, w)
                  end
              end
            else
              let '(c, w) := writeFileSync outputFile body (on_write o) w in
              match c with
              | Throw e => (Unsettled e, w)
              | Normal _ => finish w
              end
        | Broken _ _ _ e => (broken_off e, w)
        | NoResponse => (Unsettled incomplete, w)
        end
    end.

(** voicevox.js 86-125: resolves with the parsed body, or with the body as a
    string when it is not JSON; the status code is not read.  [None]: the
    promise never settles.  The request has a timeout, whose listener
    rejects. *)
Definition httpPost (baseUrl : json) (endpoint : string) (r : http_reply) (w : world)
  : option (completion jsval) * world :=
  if negb (URL_ok baseUrl) then (Some (Throw (TypeError "Invalid URL")), w)
  else
    let w := emit (Http endpoint) w in
    match r with
    | NetError e => (Some (Throw e), w)
    | HttpResponse _ _ body =>
        (Some (Normal (Some (default (JStr (string_of_list_byte body)) (JSON_parse body)))), w)
    | Broken _ _ _ (Some e) => (Some (Throw e), w)
    | Broken _ _ _ None => (None, w)
    | NoResponse => (Some (Throw (SystemError "Timeout")), w)
    end.

(** voicevox.js 130-165 *)
Definition httpPostBinary (baseUrl : json) (endpoint : string) (r : http_reply) (w : world)
  : option (completion (list byte)) * world :=
  if negb (URL_ok baseUrl) then (Some (Throw (TypeError "Invalid URL")), w)
  else
    let w := emit (Http endpoint) w in
    match r with
    | NetError e => (Some (Throw e), w)
    | HttpResponse _ _ body => (Some (Normal body), w)
    | Broken _ _ _ (Some e) => (Some (Throw e), w)
    | Broken _ _ _ None => (None, w)
    | NoResponse => (Some (Throw (SystemError "Timeout")), w)
    end.

(** voicevox.js 44, the template literal of [queryUrl]: it converts
    [baseUrl] and [speaker] to strings and encodes the text. *)
Definition query_url (baseUrl speaker : json) (text : string) : completion string :=
  if ToString_throws baseUrl then Throw not_primitive
  else
    match encodeURIComponent text with
    | None => Throw URIError
    | Some encoded =>
        if ToString_throws speaker then Throw not_primitive
        else Normal (ToString baseUrl ++ "/audio_query?text=" ++ encoded
                       ++ "&speaker=" ++ ToString speaker)
    end.

(** voicevox.js 52, the template literal of the log line: it converts the
    three scales to strings. *)
Definition log_params (pitchScale speedScale intonationScale : json) : completion unit :=
  if ToString_throws pitchScale || ToString_throws speedScale
     || ToString_throws intonationScale
  then Throw not_primitive
  else Normal tt.

(** voicevox.js 29-79.  Everything after the cache check is inside the
    [try], the building of the URL and the log line included. *)
Definition synthesize_voicevox (baseUrl speaker pitchScale speedScale intonationScale : json)
    (text outputDir : string) (o : oracle) (w : world) : promise * world :=
  let hash := md5_hex text in
  let outputFile := path_join outputDir (hash ++ ".wav") in
  let fallback := Resolved {| audioUrl := None; duration := estimateDuration text |} in
  let '(cached, w) := existsSync outputFile w in
  if cached then
    (Resolved {| audioUrl := Some (audio_url hash "wav");
                 duration := estimateDuration text |}, w)
  else
    match query_url baseUrl speaker text with
    | Throw _ => (fallback, w)
    | Normal _ =>
        let '(q, w) := httpPost baseUrl "audio_query" (on_request o) w in
        match q with
        | None => (Unsettled incomplete, w)
        | Some (Throw _) => (fallback, w)
        | Some (Normal queryResult) =>
            if negb (truthy queryResult) then (fallback, w)
            else
              match log_params pitchScale speedScale intonationScale with
              | Throw _ => (fallback, w)
              | Normal _ =>
                  let '(a, w) := httpPostBinary baseUrl "synthesis" (on_second_request o) w in
                  match a with
                  | None => (Unsettled incomplete, w)
                  | Some (Throw _) => (fallback, w)
                  | Some (Normal audioBuffer) =>
                      let '(c, w) := writeFileSync outputFile audioBuffer (on_write o) w in
                      match c with
                      | Throw _ => (fallback, w)
                      | Normal _ =>
                          (Resolved {| audioUrl := Some (audio_url hash "wav");
                                       duration := estimateDuration text |}, w)
                      end
                  end
              end
        end
    end.

(** [adapter.synthesize(text, outputDir)] *)
Definition synthesize (a : adapter) (text outputDir : string) (o : oracle) (w : world)
  : promise * world :=
  match a with
  | DummyTTS => synthesize_dummy text w
  | PiperTTS _ _ available => synthesize_piper available text outputDir o w
  | VoicevoxTTS baseUrl speaker pitchScale speedScale intonationScale =>
      synthesize_voicevox baseUrl speaker pitchScale speedScale intonationScale
        text outputDir o w
  | OpenAITTS _ _ voice => synthesize_openai voice text outputDir o w
  | GoogleTTS _ languageCode voiceName _ => synthesize_google languageCode voiceName text outputDir o w
  | AzureTTS _ _ voice => synthesize_azure voice text outputDir o w
  | GenericAPITTS url _ _ bodyTemplate audioPath audioFormat =>
      synthesize_generic url bodyTemplate audioPath audioFormat text outputDir o w
  | CustomTTS _ => synthesize_custom text outputDir o w
  end.

End Adapters.

(** ** Constructors and the dispatcher *)

(** What the constructors read from the process: environment variables, and
    whether [which <command>] finds the executable. *)
Record process : Type := {
  env : string -> option string;
  which : json -> bool
}.

(** [console.warn] calls made while building an adapter. *)
Inductive warning : Type :=
| UnknownEngine (engine : json)
| PiperNotFound
| OpenAIKeyMissing
| GoogleKeyMissing
| AzureKeyMissing
| GenericUrlMissing.

Definition built : Type := adapter * list warning.

(** index.js 74-84 and api.js 368-378 *)
Definition createDummyTTS : adapter := DummyTTS.

(** [process.env.NAME] *)
Definition env_var (p : process) (name : string) : jsval := JStr <$> env p name.

(** piper.js 13-73 *)
Definition createPiperTTS (p : process) (config : jsval) : completion built :=
  let* c := member config "command" in
  let command := js_or c (JStr "piper") in
  let* m := member config "model" in
  let model := js_or m (JStr "ja_JP-test-medium") in
  if which p command then Normal (PiperTTS command model true, [])
  else Normal (PiperTTS command model false, [PiperNotFound]).

(** voicevox.js 14-81 *)
Definition createVoicevoxTTS (config : jsval) : completion built :=
  let* u := member config "url" in
  let baseUrl := js_or u (JStr "http://localhost:50021") in
  let* sp := member config "speaker" in
  let speaker := js_or sp (JNum (of_Z 1)) in
  let* ps := member config "pitchScale" in
  let pitchScale := js_or ps (JNum (of_Z 0)) in
  let* ss := member config "speedScale" in
  let speedScale := js_or ss (JNum (of_Z 1)) in
  let* it := member config "intonationScale" in
  let intonationScale := js_or it (JNum (of_Z 1)) in
  Normal (VoicevoxTTS baseUrl speaker pitchScale speedScale intonationScale, []).

(** api.js 17-93 *)
Definition createOpenAITTS (p : process) (config : jsval) : completion built :=
  let* k := member config "apiKey" in
  let apiKey := js_or_undef k (env_var p "OPENAI_API_KEY") in
  let* m := member config "model" in
  let model := js_or m (JStr "tts-1") in
  let* v := member config "voice" in
  let voice := js_or v (JStr "alloy") in
  match apiKey with
  | Some key => if truthy apiKey then Normal (OpenAITTS key model voice, [])
                else Normal (createDummyTTS, [OpenAIKeyMissing])
  | None => Normal (createDummyTTS, [OpenAIKeyMissing])
  end.

(** api.js 99-173 *)
Definition createGoogleTTS (p : process) (config : jsval) : completion built :=
  let* k := member config "apiKey" in
  let apiKey := js_or_undef k (env_var p "GOOGLE_API_KEY") in
  let* l := member config "languageCode" in
  let languageCode := js_or l (JStr "en-US") in
  let* v := member config "voiceName" in
  let voiceName := js_or v JNull in
  let* g := member config "ssmlGender" in
  let ssmlGender := js_or g (JStr "NEUTRAL") in
  match apiKey with
  | Some key => if truthy apiKey then Normal (GoogleTTS key languageCode voiceName ssmlGender, [])
                else Normal (createDummyTTS, [GoogleKeyMissing])
  | None => Normal (createDummyTTS, [GoogleKeyMissing])
  end.

(** api.js 179-244 *)
Definition createAzureTTS (p : process) (config : jsval) : completion built :=
  let* k := member config "subscriptionKey" in
  let subscriptionKey := js_or_undef k (env_var p "AZURE_SPEECH_KEY") in
  let* r := member config "region" in
  let region := js_or (js_or_undef r (env_var p "AZURE_SPEECH_REGION")) (JStr "eastus") in
  let* v := member config "voice" in
  let voice := js_or v (JStr "en-US-JennyNeural") in
  match subscriptionKey with
  | Some key => if truthy subscriptionKey then Normal (AzureTTS key region voice, [])
                else Normal (createDummyTTS, [AzureKeyMissing])
  | None => Normal (createDummyTTS, [AzureKeyMissing])
  end.

(** api.js 250-343 *)
Definition createGenericAPITTS (config : jsval) : completion built :=
  let* url := member config "url" in
  let* me := member config "method" in
  let method := js_or me (JStr "POST") in
  let* h := member config "headers" in
  let headers := js_or h (JObj []) in
  let* b := member config "body" in
  let bodyTemplate := js_or b JNull in
  let* ap := member config "audioPath" in
  let audioPathInResponse := js_or ap (JStr "audio") in
  let* f := member config "outputFormat" in
  let audioFormat := js_or f (JStr "mp3") in
  match url with
  | Some u =>
      if truthy url then
        Normal (GenericAPITTS u method headers bodyTemplate audioPathInResponse audioFormat, [])
      else Normal (createDummyTTS, [GenericUrlMissing])
  | None => Normal (createDummyTTS, [GenericUrlMissing])
  end.

(** index.js 46-69 *)
Definition createCustomTTS (config : jsval) : completion built :=
  let* c := member config "command" in
  match c with
  | Some command => if truthy c then Normal (CustomTTS command, [])
                    else Normal (createDummyTTS, [])
  | None => Normal (createDummyTTS, [])
  end.

(** [engine === tag] in the [switch] *)
Definition is_tag (engine : json) (tag : string) : bool :=
  match engine with
  | JStr s => String.eqb s tag
  | _ => false
  end.

(** [config?.<key> || {}] *)
Definition settings (config : jsval) (key : string) : jsval :=
  Some (js_or (opt_member config key) (JObj [])).

(** index.js 17-41.  The warning of the [default] branch is a template
    literal over [engine], evaluated before anything is returned. *)
Definition createTTSEngine (p : process) (config : jsval) : completion built :=
  let engine := js_or (opt_member config "engine") (JStr "none") in
  if is_tag engine "piper" then createPiperTTS p (settings config "piper")
  else if is_tag engine "voicevox" then createVoicevoxTTS (settings config "voicevox")
  else if is_tag engine "openai" then createOpenAITTS p (settings config "openai")
  else if is_tag engine "google" then createGoogleTTS p (settings config "google")
  else if is_tag engine "azure" then createAzureTTS p (settings config "azure")
  else if is_tag engine "api" then createGenericAPITTS (settings config "api")
  else if is_tag engine "custom" then createCustomTTS (settings config "custom")
  else if is_tag engine "none" then Normal (createDummyTTS, [])
  else if ToString_throws engine then Throw not_primitive
  else Normal (createDummyTTS, [UnknownEngine engine]).


(** ** The speech routes of server.js (413-442, 458-478, 674-682) *)

(** Members every object literal inherits from [Object.prototype]: reading
    one of them off [messageQueues] yields a value that is truthy and has no
    [push]. *)
Definition Object_prototype_members : list string :=
  [ "constructor"; "__defineGetter__"; "__defineSetter__"; "hasOwnProperty";
    "__lookupGetter__"; "__lookupSetter__"; "isPrototypeOf";
    "propertyIsEnumerable"; "toString"; "valueOf"; "__proto__"; "toLocaleString" ].

Definition inherited (key : string) : bool :=
  existsb (String.eqb key) Object_prototype_members.

(** server.js 674-682; [now] is [Date.now()]. *)
Definition queueMessage (clientId : string) (message : list (string * json)) (now : number)
    (messageQueues : gmap string (list json)) : completion (gmap string (list json)) :=
  let entry := JObj (message ++ [("timestamp", JNum now)])%list in
  match messageQueues !! clientId with
  | Some queue => Normal (<[clientId := (queue ++ [entry])%list]> messageQueues)
  | None =>
      if inherited clientId
      then Throw (TypeError "messageQueues[clientId].push is not a function")
      else Normal (<[clientId := [entry]]> messageQueues)
  end.

Record server : Type := {
  messageQueues : gmap string (list json);
  disk : world
}.

(** The body of a request, for clients that send strings. *)
Record request : Type := {
  req_clientId : option string;
  req_text : option string;
  req_expression : option string
}.

Record response : Type := {
  status : Z;
  body : json
}.

(** What a handler does about the response.  It sends one ([Sent]); or it
    ends with an error that nothing in the sources catches, having sent
    nothing itself ([Escaped]: the promise of an async handler rejects, and
    whether the client then gets no answer or an error page is up to the
    version of Express, which the sources do not fix); or it never resumes
    after an [await] and sends nothing ([NoReply]). *)
Inductive reply : Type :=
| Sent (r : response)
| Escaped (e : error)
| NoReply.

Definition json_of_url (u : option string) : json :=
  match u with
  | Some s => JStr s
  | None => JNull
  end.

Definition nonempty (s : option string) : bool :=
  match s with
  | Some t => negb (String.eqb t "")
  | None => false
  end.

Definition text_required : response :=
  {| status := 400; body := JObj [("error", JStr "text required")] |}.

Section Routes.
Context {rt : Runtime}.

(** The [catch] block of [/api/speak] (435-441). *)
Definition speak_fallback (clientId text : string) (now : number)
    (queues : gmap string (list json)) (w : world) : reply * server :=
  let duration := estimateDuration text in
  match queueMessage clientId [("text", JStr text); ("duration", JNum duration)] now queues with
  | Throw e => (Escaped e, {| messageQueues := queues; disk := w |})
  | Normal queues' =>
      (Sent {| status := 200;
               body := JObj [("success", JBool true); ("duration", JNum duration)] |},
       {| messageQueues := queues'; disk := w |})
  end.

(** server.js 413-442, [app.post('/api/speak', ...)] *)
Definition speak (ttsEngine : adapter) (audioDir : string) (req : request) (now : number)
    (o : oracle) (st : server) : reply * server :=
  let clientId := default "phantom-vrm-client" (req_clientId req) in
  match req_text req with
  | None => (Sent text_required, st)
  | Some text =>
      if String.eqb text "" then (Sent text_required, st)
      else
        let queued :=
          if nonempty (req_expression req)
          then queueMessage clientId
                 [("expression", JStr (default "" (req_expression req)))] now (messageQueues st)
          else Normal (messageQueues st) in
        match queued with
        | Throw e => (Escaped e, st)
        | Normal queues =>
            let '(p, w) := synthesize ttsEngine text audioDir o (disk st) in
            match p with
            | Resolved ttsResult =>
                match queueMessage clientId
                        [("text", JStr text);
                         ("audioUrl", json_of_url (audioUrl ttsResult));
                         ("duration", JNum (duration ttsResult))] now queues with
                | Normal queues' =>
                    (Sent {| status := 200;
                             body := JObj [("success", JBool true);
                                           ("audioUrl", json_of_url (audioUrl ttsResult))] |},
                     {| messageQueues := queues'; disk := w |})
                | Throw _ => speak_fallback clientId text now queues w
                end
            | Rejected _ => speak_fallback clientId text now queues w
            | Unsettled _ => (NoReply, {| messageQueues := queues; disk := w |})
            end
        end
  end.

(** server.js 458-478, [app.post('/api/tts', ...)] *)
Definition tts (ttsEngine : adapter) (audioDir : string) (req : request)
    (o : oracle) (st : server) : reply * server :=
  match req_text req with
  | None => (Sent text_required, st)
  | Some text =>
      if String.eqb text "" then (Sent text_required, st)
      else
        let '(p, w) := synthesize ttsEngine text audioDir o (disk st) in
        let st' := {| messageQueues := messageQueues st; disk := w |} in
        match p with
        | Resolved ttsResult =>
            (Sent {| status := 200;
                     body := JObj [("success", JBool true);
                                   ("audioUrl", json_of_url (audioUrl ttsResult));
                                   ("duration", JNum (duration ttsResult))] |}, st')
        | Rejected _ =>
            let duration := estimateDuration text in
            (Sent {| status := 200;
                     body := JObj [("success", JBool true); ("duration", JNum duration)] |}, st')
        | Unsettled _ => (NoReply, st')
        end
  end.

End Routes.

(** ** The other message routes of server.js (445-455, 481-499, 527-537) *)

(** The body of a request that sets one value, for clients that send their
    id as a string. *)
Record post : Type := {
  post_clientId : option string;
  post_value : jsval
}.

(** [res.status(400).json({ error: '<field> required' })] *)
Definition required (field : string) : response :=
  {| status := 400; body := JObj [("error", JStr (field ++ " required"))] |}.

(** [/api/expression] (445-455), [/api/pose] (481-491) and [/api/background]
    (527-537) are the same text up to the member read from the body, [field],
    and the member of the queued message, [key].  These handlers are
    synchronous: what [queueMessage] throws leaves the handler. *)
Definition queue_value (field key : string) (req : post) (now : number)
    (queues : gmap string (list json)) : completion (response * gmap string (list json)) :=
  let clientId := default "phantom-vrm-client" (post_clientId req) in
  match post_value req with
  | Some value =>
      if truthy (Some value) then
        let* queues' := queueMessage clientId [(key, value)] now queues in
        Normal ({| status := 200; body := JObj [("success", JBool true); (field, value)] |},
                queues')
      else Normal (required field, queues)
  | None => Normal (required field, queues)
  end.

Definition api_expression := queue_value "expression" "expression".
Definition api_pose := queue_value "pose" "pose".

(** How a poll ends.  [PrototypeReplaced]: the client id is [__proto__] and
    [messageQueues] has no own member of that name, so the assignment of line
    497 replaces the prototype of [messageQueues]; the queues are not followed
    beyond that point. *)
Inductive polled : Type :=
| Drained (r : response) (queues : gmap string (list json))
| PrototypeReplaced (r : response).

(** [res.json({ messages })] for an array of messages. *)
Definition delivery (messages : list json) : response :=
  {| status := 200; body := JObj [("messages", JArr messages)] |}.

(** server.js 494-499, [app.get('/api/message', ...)].  An inherited member
    read off [messageQueues] is truthy: [Object.prototype] itself, which
    [res.json] prints as [{}], or a function, which it leaves out of the
    body. *)
Definition api_message (clientId : option string) (queues : gmap string (list json))
  : polled :=
  let clientId := default "phantom-vrm-client" clientId in
  match queues !! clientId with
  | Some queue => Drained (delivery queue) (<[clientId := []]> queues)
  | None =>
      if inherited clientId then
        if String.eqb clientId "__proto__"
        then PrototypeReplaced {| status := 200; body := JObj [("messages", JObj [])] |}
        else Drained {| status := 200; body := JObj [] |} (<[clientId := []]> queues)
      else Drained (delivery []) (<[clientId := []]> queues)
  end.

(** server.js 391: [createTTSEngine(config.tts || { engine: 'piper' })], where
    [tts] is [config.tts]. *)
Definition initial_engine (p : process) (tts : jsval) : completion built :=
  createTTSEngine p (Some (js_or tts (JObj [("engine", JStr "piper")]))).

(** ** The configuration module, first in [src/src/config.js] (lines 1-123) *)

Module Config.

(** config.js 33-56 *)
Definition getDefaultConfig : json :=
  JObj [ ("port", JNum (of_Z 8080));
         ("model", JStr "./models/avatar.vrm");
         ("idlePose", JStr "./poses/idle.json");
         ("vrma", JObj []);
         ("expressions",
          JObj [ ("default", JStr "neutral");
                 ("available",
                  JArr [ JStr "neutral"; JStr "happy"; JStr "sad"; JStr "angry";
                         JStr "relaxed"; JStr "surprised" ]) ]);
         ("tts",
          JObj [ ("engine", JStr "piper");
                 ("piper",
                  JObj [ ("command", JStr "piper"); ("model", JStr "ja_JP-test-medium") ]) ]);
         ("mcp", JObj [ ("enabled", JBool false); ("port", JNum (of_Z 8081)) ]);
         ("hotReload", JBool true) ].

Section Module_state.
Context {rt : Runtime}.

(** What the registered callbacks act on. *)
Variable T : Type.

(** [path.resolve(filePath)] *)
Variable path_resolve : string -> string.

Definition callback : Type := json -> T -> completion unit * T.

(** The variables of the module (lines 9-11) and the watchers it has
    installed, each with the path it watches. *)
Record state : Type := {
  config : json;
  configPath : option string;
  onChangeCallbacks : list callback;
  watchers : list string
}.

Definition initial : state :=
  {| config := JObj []; configPath := None; onChangeCallbacks := []; watchers := [] |}.

(** [JSON.parse(fs.readFileSync(path, 'utf-8'))]; [None] when either
    throws. *)
Definition read_json (path : string) (w : world) : option json :=
  match files w !! path with
  | Some content => JSON_parse content
  | None => None
  end.

(** config.js 16-28 *)
Definition loadConfig (filePath : string) (w : world) (m : state) : json * state :=
  let m := {| config := config m; configPath := Some (path_resolve filePath);
              onChangeCallbacks := onChangeCallbacks m; watchers := watchers m |} in
  match read_json (path_resolve filePath) w with
  | Some parsed =>
      (parsed, {| config := parsed; configPath := configPath m;
                  onChangeCallbacks := onChangeCallbacks m; watchers := watchers m |})
  | None => (getDefaultConfig, m)
  end.

(** config.js 68-99, up to the installation of the watcher.  [!configPath]
    is decided first, so [config.hotReload] is read only with a path. *)
Definition watchConfig (m : state) : completion state :=
  match configPath m with
  | None => Normal m
  | Some path =>
      if String.eqb path "" then Normal m
      else
        let* hotReload := member (Some (config m)) "hotReload" in
        if truthy hotReload
        then Normal {| config := config m; configPath := configPath m;
                       onChangeCallbacks := onChangeCallbacks m;
                       watchers := (watchers m ++ [path])%list |}
        else Normal m
  end.

(** config.js 104-106 *)
Definition onConfigChange (cb : callback) (m : state) : state :=
  {| config := config m; configPath := configPath m;
     onChangeCallbacks := (onChangeCallbacks m ++ [cb])%list; watchers := watchers m |}.

(** [onChangeCallbacks.forEach(cb => { try { cb(config) } catch (e) {...} })] *)
Definition notify (newConfig : json) (callbacks : list callback) (s : T) : T :=
  fold_left (fun s cb => snd (cb newConfig s)) callbacks s.

(** config.js 76-96: the listener of one watcher, on a [change] event. *)
Definition reload (w : world) (m : state) (s : T) : state * T :=
  match configPath m with
  | Some path =>
      match read_json path w with
      | Some newConfig =>
          ({| config := newConfig; configPath := configPath m;
              onChangeCallbacks := onChangeCallbacks m; watchers := watchers m |},
           notify newConfig (onChangeCallbacks m) s)
      | None => (m, s)
      end
  | None => (m, s)
  end.

(** What the rest of the program can do with the module, and what can happen
    to a watched file. *)
Inductive call : Type :=
| LoadConfig (filePath : string) (w : world)
| WatchConfig
| OnConfigChange (cb : callback)
| FileChanged (path : string) (w : world).

Definition is_load (c : call) : bool :=
  match c with LoadConfig _ _ => true | _ => false end.

(** A change of [path] runs the listener of every watcher of [path]. *)
Definition step (c : call) (ms : state * T) : completion (state * T) :=
  let '(m, s) := ms in
  match c with
  | LoadConfig filePath w => Normal (snd (loadConfig filePath w m), s)
  | WatchConfig => let* m' := watchConfig m in Normal (m', s)
  | OnConfigChange cb => Normal (onConfigChange cb m, s)
  | FileChanged path w =>
      Normal (fold_left (fun ms _ => reload w (fst ms) (snd ms))
                (filter (String.eqb path) (watchers m)) (m, s))
  end.

Fixpoint run (calls : list call) (ms : state * T) : completion (state * T) :=
  match calls with
  | [] => Normal ms
  | c :: rest => let* ms' := step c ms in run rest ms'
  end.

End Module_state.

Arguments config {T} _.
Arguments configPath {T} _.
Arguments onChangeCallbacks {T} _.
Arguments watchers {T} _.
Arguments initial {T}.
Arguments watchConfig {T} _.
Arguments onConfigChange {T} _ _.
Arguments LoadConfig {T} _ _.
Arguments WatchConfig {T}.
Arguments OnConfigChange {T} _.
Arguments FileChanged {T} _ _.
Arguments is_load {T} _.

End Config.

(** ** The loopback output, second in [src/src/config.js] (lines 124-306) *)

Module Loopback.

Inductive program : Type := Xvfb | Chrome | FFmpeg.

(** What the class does to the host: commands run through [execPromise],
    children spawned (each child is known by a handle) and children sent
    SIGTERM. *)
Inductive event : Type :=
| Ran (command : string)
| Spawned (p : program) (handle : nat)
| Killed (handle : nat).

(** How [spawn] ends for one program: with a running child; with a
    synchronous throw (arguments that [spawn] refuses, or that cannot be
    converted to strings); or, for a program that is not installed, with a
    child that never runs.  Node reports the last case by an [error] event on
    the child at the next tick; the class installs no listener for it
    (194-267), so the event is an uncaught exception and ends the process. *)
Inductive spawning : Type :=
| Runs
| Throws (e : error)
| Missing.

(** How the host answers one call: whether the device is there, whether
    [modprobe] fails, how [spawn] ends for each program, and whether SIGTERM
    cannot be delivered to the child of a program: [kill] then emits an
    [error] event on the child, which, with no listener, is thrown out of
    [kill]. *)
Record host : Type := {
  device_exists : bool;
  modprobe : option error;
  on_spawn : program -> spawning;
  kill_error : program -> option error
}.

Record LoopbackOutput : Type := {
  config : gmap string json;
  xvfbProcess : option nat;
  browserProcess : option nat;
  ffmpegProcess : option nat;
  isActive : bool
}.

(** loopback.js 134-149.  The members of [config] are spread last. *)
Definition constructor (config : gmap string json) : LoopbackOutput :=
  {| config :=
       config ∪
       <["device" := js_or (config !! "device") (JStr "/dev/video0")]>
       (<["width" := js_or (config !! "width") (JNum (of_Z 1280))]>
       (<["height" := js_or (config !! "height") (JNum (of_Z 720))]>
       (<["fps" := js_or (config !! "fps") (JNum (of_Z 30))]>
       (<["browserUrl" := js_or (config !! "browserUrl") (JStr "http://localhost:8080")]>
       (<["display" := JStr ":99"]> ∅)))));
     xvfbProcess := None;
     browserProcess := None;
     ffmpegProcess := None;
     isActive := false |}.

(** loopback.js 151-166.  [this.config.device.replace] exists on strings
    only. *)
Definition initDevice (h : host) (this : LoopbackOutput) (log : list event)
  : completion unit * list event :=
  let log := (log ++ [Ran "test -e"])%list in
  if device_exists h then (Normal tt, log)
  else
    match config this !! "device" with
    | Some (JStr _) =>
        let log := (log ++ [Ran "modprobe v4l2loopback"])%list in
        match modprobe h with
        | None => (Normal tt, log)
        | Some e => (Throw e, log)
        end
    | _ => (Throw (TypeError "this.config.device.replace is not a function"), log)
    end.

(** How a call of [start] ends: it returns, it throws, or the process ends
    under it. *)
Inductive outcome : Type :=
| Returned
| Threw (e : error)
| Died.

(** [spawn(...)]: a handle for the new child, a synchronous throw, or the
    end of the process. *)
Definition spawn (h : host) (p : program) (log : list event)
  : outcome * nat * list event :=
  match on_spawn h p with
  | Runs => (Returned, List.length log, (log ++ [Spawned p (List.length log)])%list)
  | Throws e => (Threw e, O, log)
  | Missing => (Died, O, log)
  end.

(** [if (this.<child>) { this.<child>.kill('SIGTERM'); ... }] *)
Definition kill (h : host) (p : program) (child : option nat) (log : list event)
  : completion unit * list event :=
  match child with
  | Some handle =>
      match kill_error h p with
      | Some e => (Throw e, log)
      | None => (Normal tt, (log ++ [Killed handle])%list)
      end
  | None => (Normal tt, log)
  end.

(** loopback.js 273-294.  A child is forgotten once [kill] has returned for
    it; a [kill] that throws ends [stop] there. *)
Definition stop (h : host) (this : LoopbackOutput) (log : list event)
  : completion unit * LoopbackOutput * list event :=
  let this := {| config := config this; xvfbProcess := xvfbProcess this;
                 browserProcess := browserProcess this;
                 ffmpegProcess := ffmpegProcess this; isActive := false |} in
  let '(c, log) := kill h FFmpeg (ffmpegProcess this) log in
  match c with
  | Throw e => (Throw e, this, log)
  | Normal _ =>
      let this := {| config := config this; xvfbProcess := xvfbProcess this;
                     browserProcess := browserProcess this;
                     ffmpegProcess := None; isActive := isActive this |} in
      let '(c, log) := kill h Chrome (browserProcess this) log in
      match c with
      | Throw e => (Throw e, this, log)
      | Normal _ =>
          let this := {| config := config this; xvfbProcess := xvfbProcess this;
                         browserProcess := None;
                         ffmpegProcess := ffmpegProcess this; isActive := isActive this |} in
          let '(c, log) := kill h Xvfb (xvfbProcess this) log in
          match c with
          | Throw e => (Throw e, this, log)
          | Normal _ =>
              (Normal tt,
               {| config := config this; xvfbProcess := None;
                  browserProcess := browserProcess this;
                  ffmpegProcess := ffmpegProcess this; isActive := isActive this |}, log)
          end
      end
  end.

(** The [catch] block of [start] (185-189): [await this.stop()], then the
    error caught is thrown again, unless [stop] has thrown its own. *)
Definition failed (h : host) (e : error) (this : LoopbackOutput) (log : list event)
  : outcome * LoopbackOutput * list event :=
  let '(c, this, log) := stop h this log in
  (match c with Throw e' => Threw e' | Normal _ => Threw e end, this, log).

(** loopback.js 168-190 with [startXvfb], [startBrowser] and [startFFmpeg]
    (192-271), for calls that do not overlap: the waits between the steps are
    not points where another call comes in.  Each child is stored as soon as
    [spawn] has returned it. *)
Definition start (h : host) (this : LoopbackOutput) (log : list event)
  : outcome * LoopbackOutput * list event :=
  if isActive this then (Returned, this, log)
  else
    let '(c, log) := initDevice h this log in
    match c with
    | Throw e => failed h e this log
    | Normal _ =>
        let '(c, x, log) := spawn h Xvfb log in
        match c with
        | Died => (Died, this, log)
        | Threw e => failed h e this log
        | Returned =>
            let this := {| config := config this; xvfbProcess := Some x;
                           browserProcess := browserProcess this;
                           ffmpegProcess := ffmpegProcess this;
                           isActive := isActive this |} in
            let '(c, b, log) := spawn h Chrome log in
            match c with
            | Died => (Died, this, log)
            | Threw e => failed h e this log
            | Returned =>
                let this := {| config := config this; xvfbProcess := xvfbProcess this;
                               browserProcess := Some b;
                               ffmpegProcess := ffmpegProcess this;
                               isActive := isActive this |} in
                let '(c, f, log) := spawn h FFmpeg log in
                match c with
                | Died => (Died, this, log)
                | Threw e => failed h e this log
                | Returned =>
                    (Returned,
                     {| config := config this; xvfbProcess := xvfbProcess this;
                        browserProcess := browserProcess this;
                        ffmpegProcess := Some f; isActive := true |}, log)
                end
            end
        end
    end.

(** Calls made one after the other, each with the answers of the host at
    that time; what [start] or [stop] throws is caught by the caller, as in
    server.js 604-616. *)
Inductive call : Type := Start (h : host) | Stop (h : host).

Definition host_of (c : call) : host :=
  match c with Start h | Stop h => h end.

(** The object and what has happened to the host so far, as long as the
    process lives; afterwards only the latter. *)
Inductive state : Type :=
| Running (this : LoopbackOutput) (log : list event)
| Ended (log : list event).

Definition step (c : call) (s : state) : state :=
  match s with
  | Ended log => Ended log
  | Running this log =>
      match c with
      | Start h =>
          let '(c, this, log) := start h this log in
          match c with
          | Died => Ended log
          | _ => Running this log
          end
      | Stop h => let '(_, this, log) := stop h this log in Running this log
      end
  end.

Definition run (calls : list call) (s : state) : state :=
  fold_left (fun s c => step c s) calls s.

(** The fixed part of the configuration. *)
Definition defaults : gmap string json :=
  <["device" := JStr "/dev/video0"]>
  (<["width" := JNum (of_Z 1280)]>
  (<["height" := JNum (of_Z 720)]>
  (<["fps" := JNum (of_Z 30)]>
  (<["browserUrl" := JStr "http://localhost:8080"]>
  (<["display" := JStr ":99"]> ∅))))).

(** The children spawned and not yet killed, oldest first. *)
Definition alive (log : list event) : list nat :=
  fold_left (fun live ev =>
               match ev with
               | Spawned _ handle => (live ++ [handle])%list
               | Killed handle => filter (fun h => h <> handle) live
               | Ran _ => live
               end) log [].

(** The children an object holds, in the order it spawns them. *)
Definition held (this : LoopbackOutput) : list nat :=
  omap id [xvfbProcess this; browserProcess this; ffmpegProcess this].

(** Nothing runs but what the object holds; it holds all three children when
    active and none otherwise. *)
Definition settled (s : LoopbackOutput * list event) : Prop :=
  alive (snd s) = held (fst s)
  /\ if isActive (fst s)
     then exists x b f, xvfbProcess (fst s) = Some x
                        /\ browserProcess (fst s) = Some b
                        /\ ffmpegProcess (fst s) = Some f
     else held (fst s) = [].

(** What holds of a state when every call so far was one of [all]: while
    the process lives the object is settled; once it has ended, some [start]
    met a program that is not installed, and what is left running are
    children of that [start], two at most. *)
Definition kept (all : list call) (s : state) : Prop :=
  match s with
  | Running this log => settled (this, log)
  | Ended log =>
      (exists h p, In (Start h) all /\ on_spawn h p = Missing)
      /\ (List.length (alive log) <= 2)%nat
  end.

End Loopback.

(** ** The command line, [src/bin/vrm-avatar.js] *)

Module Cli.

(** The locals of [startServer] that the argument loop sets (lines 63-66). *)
Record options : Type := {
  configPath : string;
  port : option number;       (* [None] is [null] *)
  debug : bool;
  openBrowser : bool
}.

(** [args[i + 1]], read as a condition. *)
Definition has_value (rest : list string) : bool :=
  match rest with
  | value :: _ => negb (String.eqb value "")
  | [] => false
  end.

Section Loop.

(** [parseInt] *)
Variable parseInt : string -> number.

(** The loop of lines 68-83, from position [i] on; [args] is what is left of
    the command line there. *)
Fixpoint scan (args : list string) (o : options) : options :=
  match args with
  | [] => o
  | arg :: rest =>
      if String.eqb arg "start" || String.eqb arg "creation" then scan rest o
      else if (String.eqb arg "--config" || String.eqb arg "-c") && has_value rest then
        match rest with
        | value :: rest' =>
            scan rest' {| configPath := value; port := port o; debug := debug o;
                          openBrowser := openBrowser o |}
        | [] => o
        end
      else if (String.eqb arg "--port" || String.eqb arg "-p") && has_value rest then
        match rest with
        | value :: rest' =>
            scan rest' {| configPath := configPath o; port := Some (parseInt value);
                          debug := debug o; openBrowser := openBrowser o |}
        | [] => o
        end
      else if String.eqb arg "--debug" || String.eqb arg "-d" then
        scan rest {| configPath := configPath o; port := port o; debug := true;
                     openBrowser := openBrowser o |}
      else if String.eqb arg "--no-browser" then
        scan rest {| configPath := configPath o; port := port o; debug := debug o;
                     openBrowser := false |}
      else scan rest o
  end.

(** Lines 86-97, for a configuration that is an object: [config] holds its
    members, and the result those handed to [createServer]. *)
Definition configure (openCreationMode : bool) (o : options) (config : gmap string json)
  : gmap string json :=
  let config :=
    match port o with
    | Some n => if is_falsy n then config else <["port" := JNum n]> config
    | None => config
    end in
  let config := <["debug" := JBool (debug o)]> config in
  if openCreationMode then
    <["browserUrl" := JStr "?creation"]> (<["openBrowser" := JBool true]> config)
  else if openBrowser o then <["openBrowser" := JBool true]> config
  else config.

(** [startServer(openCreationMode, openBrowser)] (63-102) up to the call of
    [createServer], given the members of the object [loadConfig] returned. *)
Definition startServer (openCreationMode openBrowser : bool) (args : list string)
    (config : gmap string json) : gmap string json :=
  configure openCreationMode
    (scan args {| configPath := "./config.json"; port := None; debug := false;
                  openBrowser := openBrowser |})
    config.

End Loop.

(** What the command line ends up doing: printing the usage, starting the
    server, sending one request to the server, or giving up with a message
    and exit code 1. *)
Inductive action : Type :=
| Help
| Serve (openCreationMode : bool)
| Request (endpoint method : string) (body : option (string * string))
| Refuse (message : string).

(** [const name = args[1]; if (!name) { ... process.exit(1) }], then
    [callApi(endpoint, 'POST', { <field>: name })] (lines 146-174). *)
Definition post_argument (rest : list string) (endpoint field missing : string) : action :=
  match rest with
  | value :: _ =>
      if String.eqb value "" then Refuse missing
      else Request endpoint "POST" (Some (field, value))
  | [] => Refuse missing
  end.

(** Lines 19-51 and 136-201: the help, [runCommand] and the last lines of
    the file. *)
Definition main (args : list string) : action :=
  match args with
  | [] => Help
  | command :: rest =>
      if String.eqb command "" || String.eqb command "--help" || String.eqb command "-h"
      then Help
      else if String.eqb command "creation" then Serve true
      else if String.eqb command "speak"
      then post_argument rest "/api/speak" "text" "text required"
      else if String.eqb command "pose"
      then post_argument rest "/api/pose" "pose" "pose name required"
      else if String.eqb command "expression"
      then post_argument rest "/api/expression" "expression" "expression name required"
      else if String.eqb command "status" then Request "/api/status" "GET" None
      else Serve false
  end.

(** The flags of the loop. *)
Definition flags : list string :=
  ["--config"; "-c"; "--port"; "-p"; "--debug"; "-d"; "--no-browser"].

End Cli.

(** ** Vocabulary of the statements *)

(** The estimator in the words of the specification:
    [max(500, round(1000 * len(text) / 12))]. *)
Definition estimate_spec (text : string) : number :=
  of_Z (Z.max 500 ((2 * (1000 * Z.of_nat (String.length text)) + 12) / 24)).

(** The size-based duration in the words of the specification:
    [round(1000 * sizeInBytes / 16000)]. *)
Definition duration_spec (sizeInBytes : nat) : number :=
  of_Z ((2 * (1000 * Z.of_nat sizeInBytes) + 16000) / 32000).

(** [estimateDuration] as a function of the length alone, and the check that
    rounding it gives the value of the specification. *)
Definition estimate_of_length (n : nat) : number :=
  Math_max (of_Z 500) (mul (div (of_nat n) charsPerSecond) (of_Z 1000)).

Definition rounds_to_spec (n : nat) : bool :=
  same_number (Math_round (estimate_of_length n))
    (of_Z (Z.max 500 ((2 * (1000 * Z.of_nat n) + 12) / 24))).

(** The duration [getAudioDuration] derives from what is at a path. *)
Definition file_duration (content : option (list byte)) : number :=
  match content with
  | Some bs => Math_round (mul (div (of_nat (List.length bs)) (of_Z 16000)) (of_Z 1000))
  | None => of_Z 0
  end.

(** Process spawns and network requests recorded so far. *)
Definition invocations (w : world) : list event := filter is_invocation (trace w).

(** Writes through [fs] begun so far. *)
Definition is_write (ev : event) : bool :=
  match ev with FsWrite _ => true | _ => false end.

Definition writes (w : world) : list event := filter is_write (trace w).

(** The adapters of api.js. *)
Definition is_hosted (a : adapter) : bool :=
  match a with
  | OpenAITTS _ _ _ | GoogleTTS _ _ _ _ | AzureTTS _ _ _ | GenericAPITTS _ _ _ _ _ _ => true
  | _ => false
  end.

Definition returns {A} (c : completion A) : Prop := exists a, c = Normal a.

(** The call runs no command line that reaches beyond its output file: only
    an available Piper adapter runs one at all. *)
Definition shell_confined (a : adapter) (o : oracle) : bool :=
  match a, on_exec o with
  | PiperTTS _ _ true, ExecRewrote _ _ => false
  | _, _ => true
  end.

(** [execSync] throws. *)
Definition command_fails (r : exec_reply) : bool :=
  match r with
  | ExecFailed _ _ | ExecRewrote (Fails _) _ => true
  | _ => false
  end.

(** [execSync] never returns. *)
Definition command_blocks (r : exec_reply) : bool :=
  match r with
  | ExecRewrote NeverReturns _ => true
  | _ => false
  end.

(** The answer did not break off after its headers. *)
Definition unbroken (r : http_reply) : bool :=
  match r with
  | Broken _ _ _ _ => false
  | _ => true
  end.

(** The request ends with an error, or with the timeout. *)
Definition request_fails (r : http_reply) : bool :=
  match r with
  | NetError _ | Broken _ _ _ (Some _) | NoResponse => true
  | HttpResponse _ _ _ | Broken _ _ _ None => false
  end.

(** The answer breaks off and no error follows. *)
Definition breaks_off_silently (r : http_reply) : bool :=
  match r with
  | Broken _ _ _ None => true
  | _ => false
  end.

Section CacheNames.
Context {rt : Runtime}.

(** The hash and the extension an adapter names its cache entry with: a
    function of the text and of the constants captured at construction. *)
Definition cache_entry (a : adapter) (text : string) : option (string * string) :=
  match a with
  | DummyTTS => None
  | PiperTTS _ _ _ | VoicevoxTTS _ _ _ _ _ | CustomTTS _ => Some (md5_hex text, "wav")
  | OpenAITTS _ _ voice | AzureTTS _ _ voice => Some (md5_hex (text ++ ToString voice), "mp3")
  | GoogleTTS _ languageCode voiceName _ =>
      Some (md5_hex (text ++ ToString languageCode ++ ToString (js_or (Some voiceName) (JStr ""))),
            "mp3")
  | GenericAPITTS url _ _ _ _ audioFormat =>
      Some (md5_hex (text ++ ToString url), ToString audioFormat)
  end.

Definition cache_path (outputDir : string) (entry : string * string) : string :=
  path_join outputDir (fst entry ++ "." ++ snd entry).

Definition cache_url (entry : string * string) : string :=
  audio_url (fst entry) (snd entry).

End CacheNames.

(** [messageQueues[clientId]] is an own array, or it is [undefined]. *)
Definition can_queue (queues : gmap string (list json)) (clientId : string) : bool :=
  bool_decide (is_Some (queues !! clientId)) || negb (inherited clientId).



(** What [queueMessage] pushes. *)
Definition stamped (message : list (string * json)) (now : number) : json :=
  JObj (message ++ [("timestamp", JNum now)])%list.

(** The messages waiting for a client. *)
Definition pending (queues : gmap string (list json)) (clientId : string) : list json :=
  default [] (queues !! clientId).

(** The three constructors of api.js that need a credential. *)
Inductive provider : Type := OpenAI | Google | Azure.

Definition construct (pr : provider) : process -> jsval -> completion built :=
  match pr with
  | OpenAI => createOpenAITTS
  | Google => createGoogleTTS
  | Azure => createAzureTTS
  end.

(** Where each of them looks for its credential, and what it warns when it
    finds none. *)
Definition key_member (pr : provider) : string :=
  match pr with OpenAI | Google => "apiKey" | Azure => "subscriptionKey" end.

Definition key_variable (pr : provider) : string :=
  match pr with
  | OpenAI => "OPENAI_API_KEY"
  | Google => "GOOGLE_API_KEY"
  | Azure => "AZURE_SPEECH_KEY"
  end.

Definition key_missing (pr : provider) : warning :=
  match pr with
  | OpenAI => OpenAIKeyMissing
  | Google => GoogleKeyMissing
  | Azure => AzureKeyMissing
  end.

Definition provider_name (pr : provider) : string :=
  match pr with OpenAI => "openai" | Google => "google" | Azure => "azure" end.

(** The credential an adapter holds. *)
Definition key_of (a : adapter) : option json :=
  match a with
  | OpenAITTS k _ _ | GoogleTTS k _ _ _ | AzureTTS k _ _ => Some k
  | _ => None
  end.

(** The tag of the [switch] that leads to an adapter. *)
Definition tag_of (a : adapter) : string :=
  match a with
  | GenericAPITTS _ _ _ _ _ _ => "api"
  | _ => name a
  end.

(** The constants of an adapter that its constructor guards with [||], each
    with the value to the right of its [||]. *)
Definition guarded (a : adapter) : list (json * json) :=
  match a with
  | DummyTTS | CustomTTS _ => []
  | PiperTTS command model _ =>
      [(command, JStr "piper"); (model, JStr "ja_JP-test-medium")]
  | VoicevoxTTS baseUrl speaker pitchScale speedScale intonationScale =>
      [(baseUrl, JStr "http://localhost:50021"); (speaker, JNum (of_Z 1));
       (pitchScale, JNum (of_Z 0)); (speedScale, JNum (of_Z 1));
       (intonationScale, JNum (of_Z 1))]
  | OpenAITTS _ model voice => [(model, JStr "tts-1"); (voice, JStr "alloy")]
  | GoogleTTS _ languageCode voiceName ssmlGender =>
      [(languageCode, JStr "en-US"); (voiceName, JNull); (ssmlGender, JStr "NEUTRAL")]
  | AzureTTS _ region voice => [(region, JStr "eastus"); (voice, JStr "en-US-JennyNeural")]
  | GenericAPITTS _ method headers bodyTemplate audioPath audioFormat =>
      [(method, JStr "POST"); (headers, JObj []); (bodyTemplate, JNull);
       (audioPath, JStr "audio"); (audioFormat, JStr "mp3")]
  end.

(** The constants that a constructor checks before it builds the adapter. *)
Definition checked (a : adapter) : list json :=
  match a with
  | OpenAITTS key _ _ | GoogleTTS key _ _ _ | AzureTTS key _ _ => [key]
  | GenericAPITTS url _ _ _ _ _ => [url]
  | CustomTTS command => [command]
  | DummyTTS | PiperTTS _ _ _ | VoicevoxTTS _ _ _ _ _ => []
  end.

(** A guarded constant is truthy, or it is the right-hand side of its [||]
    and that is falsy. *)
Definition truthy_or_fallback (pair : json * json) : Prop :=
  truthy (Some (fst pair)) = true
  \/ (fst pair = snd pair /\ truthy (Some (snd pair)) = false).

(** The body [{ <field>: value }] as the routes read it. *)
Definition posted (value : string) : post :=
  {| post_clientId := None; post_value := Some (JStr value) |}.

(** [res.json({ success: true, <field>: value })] *)
Definition accepted (field : string) (value : json) : response :=
  {| status := 200; body := JObj [("success", JBool true); (field, value)] |}.

(** Whether the estimate for [n] characters is the floor of 500, and whether
    that is so exactly up to six characters. *)
Definition floor_applies (n : nat) : bool :=
  same_number (estimate_of_length n) (of_Z 500).

Definition floor_up_to_six (n : nat) : bool :=
  Bool.eqb (floor_applies n) (n <=? 6)%nat.

(** Whether the duration derived from [n] bytes is zero, and whether that is
    so exactly below eight bytes. *)
Definition silent (n : nat) : bool :=
  same_number (file_duration (Some (repeat x00 n))) (of_Z 0).

Definition silent_below_eight (n : nat) : bool :=
  Bool.eqb (silent n) (n <? 8)%nat.

(** ** Sample data for closed examples *)

Definition sample_process : process :=
  {| env := fun _ => None; which := fun _ => false |}.

Definition empty_world : world := {| files := ∅; trace := [] |}.

Definition fresh_server : server :=
  {| messageQueues := ∅; disk := empty_world |}.

Definition say (text : string) : request :=
  {| req_clientId := None; req_text := Some text; req_expression := None |}.

Definition sample_piper : adapter :=
  PiperTTS (JStr "piper") (JStr "ja_JP-test-medium") true.
Definition sample_custom : adapter := CustomTTS (JStr "say {text} -o {output}").
Definition sample_openai : adapter := OpenAITTS (JStr "sk-test") (JStr "tts-1") (JStr "alloy").
Definition sample_google : adapter :=
  GoogleTTS (JStr "key") (JStr "en-US") JNull (JStr "NEUTRAL").
Definition sample_generic : adapter :=
  GenericAPITTS (JStr "https://tts.example/speak") (JStr "POST") (JObj []) JNull
    (JStr "audio") (JStr "mp3").


(** A host on which everything works, and one without the browser. *)
Definition willing : Loopback.host :=
  {| Loopback.device_exists := true; Loopback.modprobe := None;
     Loopback.on_spawn := fun _ => Loopback.Runs;
     Loopback.kill_error := fun _ => None |}.

Definition without_browser : Loopback.host :=
  {| Loopback.device_exists := true; Loopback.modprobe := None;
     Loopback.on_spawn := fun p => match p with
                                   | Loopback.Chrome => Loopback.Missing
                                   | _ => Loopback.Runs
                                   end;
     Loopback.kill_error := fun _ => None |}.

(** A world in which nothing answers and commands leave nothing. *)
Definition quiet : oracle :=
  {| on_exec := Exited None;
     on_request := NetError (SystemError "ECONNREFUSED");
     on_second_request := NetError (SystemError "ECONNREFUSED");
     on_write := Written |}.

Definition exec_fails : oracle :=
  {| on_exec := ExecFailed (SystemError "ETIMEDOUT") None;
     on_request := on_request quiet;
     on_second_request := on_second_request quiet;
     on_write := Written |}.

Definition exec_writes (bs : list byte) : oracle :=
  {| on_exec := Exited (Some bs);
     on_request := on_request quiet;
     on_second_request := on_second_request quiet;
     on_write := Written |}.

Definition answers (status : Z) (contentType : option string) (body : list byte)
    (d : disk_reply) : oracle :=
  {| on_exec := Exited None;
     on_request := HttpResponse status contentType body;
     on_second_request := HttpResponse status contentType body;
     on_write := d |}.

Definition wav16 : list byte := repeat x00 16.
Definition mp3_4 : list byte := [x49; x44; x33; x04].
Definition error_page : list byte := list_byte_of_string "Internal Server Error".

Definition sample_voicevox : adapter :=
  VoicevoxTTS (JStr "http://localhost:50021") (JNum (of_Z 3)) (JNum (of_Z 0))
    (JNum (of_Z 1)) (JNum (of_Z 1)).


(** A store with one file. *)
Definition stored (path : string) (bs : list byte) : world :=
  {| files := {[ path := bs ]}; trace := [] |}.

(** A process whose environment holds an OpenAI key. *)
Definition keyed_process : process :=
  {| env := fun name => if String.eqb name "OPENAI_API_KEY" then Some "sk-env" else None;
     which := fun _ => false |}.


(** [path.resolve] in a process whose working directory is [/srv]. *)
Definition under_srv (p : string) : string := "/srv/" ++ p.

(** A callback that counts its calls. *)
Definition count_call : Config.callback nat := fun _ n => (Normal tt, S n).

(** [parseInt] for a command line whose only number is 8081. *)
Definition reads_8081 : string -> number := fun _ => of_Z 8081.

(** * Properties *)

(** ** Numbers: signs and NaN-freedom of the binary64 operations *)

Lemma shr_1_nonneg mrs : 0 <= shr_m mrs -> 0 <= shr_m (shr_1 mrs).
Proof.
  destruct mrs as [m r s]; simpl.
  destruct m as [|p|p]; [easy| |lia].
  destruct p; simpl; lia.
Qed.

Lemma iter_shr_1_nonneg p : forall mrs,
  0 <= shr_m mrs -> 0 <= shr_m (SpecFloat.iter_pos shr_1 p mrs).
Proof.
  induction p as [p IH|p IH|]; intros mrs H; simpl.
  - apply IH, IH, shr_1_nonneg, H.
  - apply IH, IH, H.
  - apply shr_1_nonneg, H.
Qed.

Lemma shr_fexp_nonneg m e l :
  0 <= m -> 0 <= shr_m (fst (shr_fexp prec emax m e l)).
Proof.
  intros H. unfold shr_fexp, shr.
  assert (H0 : 0 <= shr_m (shr_record_of_loc m l)).
  { destruct l as [|[]]; exact H. }
  destruct (fexp prec emax (Zdigits2 m + e) - e); simpl; auto.
  apply iter_shr_1_nonneg, H0.
Qed.

Lemma round_nearest_even_nonneg m l : 0 <= m -> 0 <= round_nearest_even m l.
Proof.
  intros H. destruct l as [|[]]; simpl; try lia.
  destruct (Z.even m); lia.
Qed.

(** Rounding a non-negative mantissa never yields NaN and keeps the sign. *)
Lemma binary_round_aux_sign s mx ex lx :
  0 <= mx ->
  is_nan (binary_round_aux prec emax s mx ex lx) = false /\
  sign (binary_round_aux prec emax s mx ex lx) = s.
Proof.
  intros H. unfold binary_round_aux.
  pose proof (shr_fexp_nonneg mx ex lx H) as H1.
  destruct (shr_fexp prec emax mx ex lx) as [mrs' e'] eqn:E1. simpl in H1.
  pose proof (shr_fexp_nonneg _ e' loc_Exact
                (round_nearest_even_nonneg _ (loc_of_shr_record mrs') H1)) as H2.
  destruct (shr_fexp prec emax (round_nearest_even (shr_m mrs') (loc_of_shr_record mrs')) e' loc_Exact)
    as [mrs'' e''] eqn:E2. simpl in H2.
  destruct (shr_m mrs'') as [|p|p]; [easy| |lia].
  destruct (e'' <=? emax - prec); easy.
Qed.

Lemma of_Z_nonneg z : 0 <= z -> nonneg (of_Z z).
Proof.
  intros H. unfold nonneg, of_Z, binary_normalize.
  destruct z as [|p|p]; [easy| |lia].
  unfold binary_round.
  destruct (shl_align p 0 (fexp prec emax (Z.pos (digits2_pos p) + 0))) as [mz ez].
  apply binary_round_aux_sign; lia.
Qed.

Lemma of_nat_nonneg n : nonneg (of_nat n).
Proof. apply of_Z_nonneg. lia. Qed.

Lemma div_nonneg x m e :
  nonneg x -> nonneg (div x (S754_finite false m e)).
Proof.
  intros [Hn Hs]. unfold nonneg, div, SFdiv.
  destruct x as [sx|sx| |sx mx ex]; simpl in *; try discriminate; subst; try easy.
  unfold SFdiv_core_binary.
  set (e' := Z.min _ _). set (m' := match _ with Z.pos _ => _ | _ => _ end).
  assert (Hm' : 0 <= m').
  { unfold m'. destruct (ex - e - e'); try lia. apply Z.shiftl_nonneg. lia. }
  pose proof (Z.div_pos m' (Z.pos m) Hm' ltac:(lia)) as Hq.
  unfold Z.div in Hq.
  destruct (Z.div_eucl m' (Z.pos m)) as [q r]. simpl in Hq.
  apply binary_round_aux_sign, Hq.
Qed.

Lemma mul_nonneg x m e :
  nonneg x -> nonneg (mul x (S754_finite false m e)).
Proof.
  intros [Hn Hs]. unfold nonneg, mul, SFmul.
  destruct x as [sx|sx| |sx mx ex]; simpl in *; try discriminate; subst; try easy.
  apply binary_round_aux_sign; lia.
Qed.

Lemma compare_defined a b :
  is_nan a = false -> is_nan b = false -> SFcompare a b <> None.
Proof. destruct a, b; simpl; intros; try discriminate. Qed.

Lemma leb_refl a : is_nan a = false -> leb a a = true.
Proof.
  unfold leb, SFleb.
  destruct a as [[]|[]| |[] ma ea]; simpl; try easy; intros _;
    rewrite Z.compare_refl, Pos.compare_cont_refl; reflexivity.
Qed.

Lemma Math_max_lower a b :
  is_nan a = false -> is_nan b = false -> a <> S754_zero true ->
  leb a (Math_max a b) = true /\ is_nan (Math_max a b) = false /\
  (Math_max a b = a \/ Math_max a b = b).
Proof.
  intros Ha Hb Hz. unfold Math_max.
  destruct (SFcompare a b) as [[]|] eqn:E.
  - assert (Math_max_eq : match a with S754_zero true => b | _ => a end = a).
    { destruct a as [[]| | |]; congruence. }
    rewrite Math_max_eq. repeat split; auto using leb_refl.
  - repeat split; auto. unfold leb, SFleb. rewrite E. reflexivity.
  - repeat split; auto using leb_refl.
  - exfalso. exact (compare_defined a b Ha Hb E).
Qed.

Lemma same_number_eq x y : same_number x y = true -> x = y.
Proof.
  destruct x as [s|s| |s m e], y as [s'|s'| |s' m' e']; simpl; try discriminate.
  - intros H. apply Bool.eqb_prop in H. congruence.
  - intros H. apply Bool.eqb_prop in H. congruence.
  - reflexivity.
  - intros H. apply andb_prop in H as [H He]. apply andb_prop in H as [Hs Hm].
    apply Bool.eqb_prop in Hs. apply Pos.eqb_eq in Hm. apply Z.eqb_eq in He. congruence.
Qed.

Lemma of_Z_12 : of_Z 12 = S754_finite false 6755399441055744 (-49).
Proof. reflexivity. Qed.

Lemma of_Z_1000 : of_Z 1000 = S754_finite false 8796093022208000 (-43).
Proof. reflexivity. Qed.

Lemma of_Z_16000 : of_Z 16000 = S754_finite false 8796093022208000 (-39).
Proof. reflexivity. Qed.

(** ** Durations *)

Lemma estimateDuration_floor text :
  leb (of_Z 500) (estimateDuration text) = true /\ nonneg (estimateDuration text).
Proof.
  unfold estimateDuration, charsPerSecond.
  assert (Hraw : nonneg (mul (div (of_nat (String.length text)) (of_Z 12)) (of_Z 1000))).
  { rewrite of_Z_12, of_Z_1000. apply mul_nonneg, div_nonneg, of_nat_nonneg. }
  destruct Hraw as [Hn Hs].
  destruct (Math_max_lower (of_Z 500) _ eq_refl Hn ltac:(discriminate)) as (Hle & Hnan & Hor).
  split; [exact Hle|]. split; [exact Hnan|].
  destruct Hor as [-> | ->]; [reflexivity | exact Hs].
Qed.

Lemma nearest_integer_nonneg m e : 0 <= nearest_integer false m e.
Proof.
  unfold nearest_integer, cond_Zopp.
  destruct e as [|p|p].
  - lia.
  - assert (0 < 2 ^ Z.pos p) by (apply Z.pow_pos_nonneg; lia). nia.
  - apply Z.div_pos.
    + assert (0 < 2 ^ Z.pos p) by (apply Z.pow_pos_nonneg; lia). lia.
    + apply Z.pow_pos_nonneg; lia.
Qed.

Lemma Math_round_nonneg x :
  nonneg x -> exists n : Z, 0 <= n /\ Math_round x = of_Z n.
Proof.
  intros [Hn Hs]. destruct x as [s|s| |s m e]; simpl in *; try discriminate; subst.
  - exists 0. split; [lia | reflexivity].
  - exists (2 ^ 1024). split; [lia | reflexivity].
  - exists (nearest_integer false m e). split; [apply nearest_integer_nonneg | reflexivity].
Qed.

Lemma shr_exponent mrs e n : e <= snd (shr mrs e n).
Proof. unfold shr. destruct n; simpl; lia. Qed.

(** Rounding a non-negative mantissa at a non-negative exponent gives an
    integer, or overflows. *)
Lemma binary_round_aux_integral s mx ex lx :
  0 <= mx -> 0 <= ex ->
  is_integer (binary_round_aux prec emax s mx ex lx) = true \/
  binary_round_aux prec emax s mx ex lx = S754_infinity s.
Proof.
  intros Hm He. unfold binary_round_aux.
  pose proof (shr_exponent (shr_record_of_loc mx lx) ex
                (fexp prec emax (Zdigits2 mx + ex) - ex)) as H1.
  fold (shr_fexp prec emax mx ex lx) in H1.
  destruct (shr_fexp prec emax mx ex lx) as [mrs' e'] eqn:E1. simpl in H1.
  set (m1 := round_nearest_even (shr_m mrs') (loc_of_shr_record mrs')).
  pose proof (shr_exponent (shr_record_of_loc m1 loc_Exact) e'
                (fexp prec emax (Zdigits2 m1 + e') - e')) as H2.
  fold (shr_fexp prec emax m1 e' loc_Exact) in H2.
  destruct (shr_fexp prec emax m1 e' loc_Exact) as [mrs'' e''] eqn:E2. simpl in H2.
  assert (H0 : 0 <= shr_m mrs'').
  { pose proof (shr_fexp_nonneg mx ex lx Hm) as Hn1. rewrite E1 in Hn1. simpl in Hn1.
    pose proof (shr_fexp_nonneg m1 e' loc_Exact
                  (round_nearest_even_nonneg _ (loc_of_shr_record mrs') Hn1)) as Hn2.
    rewrite E2 in Hn2. exact Hn2. }
  destruct (shr_m mrs'') as [|p|p]; simpl; auto; try lia.
  destruct (e'' <=? emax - prec); auto.
  left. simpl. destruct e''; auto; lia.
Qed.

Lemma digits2_iter_xO p d :
  digits2_pos (Pos.iter xO p d) = (digits2_pos p + d)%positive.
Proof.
  induction d as [|d IH] using Pos.peano_ind.
  - simpl. lia.
  - rewrite Pos.iter_succ. simpl. rewrite IH. lia.
Qed.

Lemma iter_xO_pow2 p d : Z.pos (Pos.iter xO p d) = Z.pos p * 2 ^ Z.pos d.
Proof.
  induction d as [|d IH] using Pos.peano_ind.
  - simpl. lia.
  - rewrite Pos.iter_succ, Pos2Z.inj_xO, IH, Pos2Z.inj_succ, Z.pow_succ_r by lia. lia.
Qed.

(** The conversion of a non-negative integer is an integer in the sense of
    [Number.isInteger], or it is [+Infinity]. *)
Lemma of_Z_integral z :
  0 <= z -> is_integer (of_Z z) = true \/ of_Z z = S754_infinity false.
Proof.
  intros H. unfold of_Z, binary_normalize.
  destruct z as [|p|p]; [auto| |lia].
  unfold binary_round, shl_align.
  destruct (fexp prec emax (Z.pos (digits2_pos p) + 0) - 0) as [|d|d] eqn:E;
    try (apply binary_round_aux_integral; lia).
  left.
  assert (Hfexp : fexp prec emax (Z.pos (digits2_pos p) + 0) = Z.neg d) by lia.
  rewrite Hfexp.
  unfold binary_round_aux, shr_fexp. cbn [Zdigits2 shr_record_of_loc].
  rewrite digits2_iter_xO.
  replace (Z.pos (digits2_pos p + d) + Z.neg d) with (Z.pos (digits2_pos p) + 0) by lia.
  rewrite Hfexp, Z.sub_diag. cbn [shr shr_m loc_of_shr_record round_nearest_even Zdigits2
    shr_record_of_loc].
  rewrite digits2_iter_xO.
  replace (Z.pos (digits2_pos p + d) + Z.neg d) with (Z.pos (digits2_pos p) + 0) by lia.
  rewrite Hfexp, Z.sub_diag. cbn [shr shr_m].
  destruct (Z.neg d <=? emax - prec) eqn:El.
  - cbn [is_integer]. rewrite iter_xO_pow2. apply Z.eqb_eq. apply Z_mod_mult.
  - apply Z.leb_gt in El. unfold emax, prec in El. lia.
Qed.

Lemma file_duration_integral content :
  nonneg (file_duration content)
  /\ (exists n : Z, 0 <= n /\ file_duration content = of_Z n)
  /\ (is_integer (file_duration content) = true \/
      file_duration content = S754_infinity false).
Proof.
  assert (H : exists n : Z, 0 <= n /\ file_duration content = of_Z n).
  { destruct content as [bs|]; unfold file_duration.
    - apply Math_round_nonneg. rewrite of_Z_16000, of_Z_1000.
      apply mul_nonneg, div_nonneg, of_nat_nonneg.
    - exists 0. split; [lia | reflexivity]. }
  destruct H as (n & Hn & Hd).
  split; [rewrite Hd; apply of_Z_nonneg, Hn|].
  split; [eauto|].
  rewrite Hd. apply of_Z_integral, Hn.
Qed.

(** ** Numbers: magnitudes, and finiteness of the two estimates *)

Lemma within_finite T E x : within T E x -> is_finite x = true.
Proof. destruct x; simpl; tauto. Qed.

Lemma digits2_pos_upper p : Z.pos p < 2 ^ Z.pos (digits2_pos p).
Proof.
  induction p as [p IH|p IH|]; simpl digits2_pos;
    rewrite ?Pos2Z.inj_succ, ?Z.pow_succ_r by lia; lia.
Qed.

Lemma digits2_pos_lower p : 2 ^ (Z.pos (digits2_pos p) - 1) <= Z.pos p.
Proof.
  induction p as [p IH|p IH|]; simpl digits2_pos; rewrite ?Pos2Z.inj_succ.
  - replace (Z.succ (Z.pos (digits2_pos p)) - 1) with (Z.succ (Z.pos (digits2_pos p) - 1)) by lia.
    rewrite Z.pow_succ_r by lia. lia.
  - replace (Z.succ (Z.pos (digits2_pos p)) - 1) with (Z.succ (Z.pos (digits2_pos p) - 1)) by lia.
    rewrite Z.pow_succ_r by lia. lia.
  - simpl. lia.
Qed.

Lemma Zdigits2_nonneg m : 0 <= Zdigits2 m.
Proof. destruct m; simpl; lia. Qed.

Lemma Zdigits2_upper m : 0 <= m -> m < 2 ^ Zdigits2 m.
Proof.
  destruct m as [|p|p]; intros H; [simpl; lia| |lia].
  apply digits2_pos_upper.
Qed.

Lemma Zdigits2_le m D : 0 <= m -> 0 <= D -> m < 2 ^ D -> Zdigits2 m <= D.
Proof.
  intros Hm HD H. destruct m as [|p|p]; [simpl; lia| |lia].
  pose proof (digits2_pos_lower p) as Hl. simpl Zdigits2.
  assert (Hlt : 2 ^ (Z.pos (digits2_pos p) - 1) < 2 ^ D) by lia.
  apply Z.pow_lt_mono_r_iff in Hlt; lia.
Qed.

Lemma Zdigits2_mono a b : 0 <= a <= b -> Zdigits2 a <= Zdigits2 b.
Proof.
  intros H. apply Zdigits2_le; [lia | apply Zdigits2_nonneg |].
  pose proof (Zdigits2_upper b). lia.
Qed.

Lemma Zdigits2_succ m : 0 <= m -> Zdigits2 (m + 1) <= Zdigits2 m + 1.
Proof.
  intros H. pose proof (Zdigits2_nonneg m). pose proof (Zdigits2_upper m H).
  apply Zdigits2_le; try lia.
  rewrite Z.pow_add_r by lia. lia.
Qed.

Lemma Zdigits2_mul a b : 0 <= a -> 0 <= b -> Zdigits2 (a * b) <= Zdigits2 a + Zdigits2 b.
Proof.
  intros Ha Hb.
  pose proof (Zdigits2_nonneg a). pose proof (Zdigits2_nonneg b).
  pose proof (Zdigits2_upper a Ha). pose proof (Zdigits2_upper b Hb).
  apply Zdigits2_le; try nia.
  rewrite Z.pow_add_r by lia. nia.
Qed.

Lemma Zdigits2_shift a s : 0 <= a -> 0 <= s -> Zdigits2 (a * 2 ^ s) <= Zdigits2 a + s.
Proof.
  intros Ha Hs.
  pose proof (Zdigits2_nonneg a). pose proof (Zdigits2_upper a Ha).
  assert (0 < 2 ^ s) by (apply Z.pow_pos_nonneg; lia).
  apply Zdigits2_le; try nia.
  rewrite Z.pow_add_r by lia. nia.
Qed.

Lemma digits_shr_1 mrs :
  0 <= shr_m mrs -> Zdigits2 (shr_m (shr_1 mrs)) = Z.max 0 (Zdigits2 (shr_m mrs) - 1).
Proof.
  destruct mrs as [m r s]; simpl. destruct m as [|p|p]; [reflexivity| |lia].
  intros _. destruct p; simpl; lia.
Qed.

Lemma digits_iter_shr_1 p : forall mrs,
  0 <= shr_m mrs ->
  Zdigits2 (shr_m (SpecFloat.iter_pos shr_1 p mrs)) = Z.max 0 (Zdigits2 (shr_m mrs) - Z.pos p).
Proof.
  induction p as [p IH|p IH|]; intros mrs H; simpl SpecFloat.iter_pos.
  - rewrite IH by (apply iter_shr_1_nonneg, shr_1_nonneg, H).
    rewrite IH by (apply shr_1_nonneg, H).
    rewrite digits_shr_1 by exact H. lia.
  - rewrite IH by (apply iter_shr_1_nonneg, H).
    rewrite IH by exact H. lia.
  - rewrite digits_shr_1 by exact H. lia.
Qed.

(** One alignment step keeps the magnitude and bounds the exponent. *)
Lemma shr_fexp_within m e l T E :
  0 <= m -> Zdigits2 m + e <= T -> e <= E -> -1074 <= T -> -1074 <= E ->
  0 <= shr_m (fst (shr_fexp prec emax m e l)) /\
  Zdigits2 (shr_m (fst (shr_fexp prec emax m e l))) + snd (shr_fexp prec emax m e l) <= T /\
  snd (shr_fexp prec emax m e l) <= Z.max E (T - 53).
Proof.
  intros Hm HT HE Hmin HminE.
  split; [apply shr_fexp_nonneg, Hm|].
  unfold shr_fexp, shr.
  assert (H0 : shr_m (shr_record_of_loc m l) = m) by (destruct l as [|[]]; reflexivity).
  assert (Hfexp : fexp prec emax (Zdigits2 m + e) = Z.max (Zdigits2 m + e - 53) (-1074))
    by reflexivity.
  destruct (fexp prec emax (Zdigits2 m + e) - e) as [|p|p] eqn:En; simpl fst; simpl snd.
  - rewrite H0. lia.
  - rewrite digits_iter_shr_1 by (rewrite H0; exact Hm). rewrite H0. lia.
  - rewrite H0. lia.
Qed.

Lemma round_nearest_even_digits m l :
  0 <= m -> Zdigits2 (round_nearest_even m l) <= Zdigits2 m + 1.
Proof.
  intros H. destruct l as [|[]]; simpl; try lia.
  - destruct (Z.even m); [lia | apply Zdigits2_succ, H].
  - apply Zdigits2_succ, H.
Qed.

Lemma binary_round_aux_within s mx ex lx T E :
  0 <= mx -> Zdigits2 mx + ex <= T -> ex <= E ->
  -1074 <= T -> T <= 1023 -> -1074 <= E -> E <= 971 ->
  within (T + 1) (Z.max E (T - 52)) (binary_round_aux prec emax s mx ex lx).
Proof.
  intros Hm HT HE Hmin Hmax HEmin HEmax. unfold binary_round_aux.
  destruct (shr_fexp_within mx ex lx T E Hm HT HE Hmin HEmin) as (Hn1 & Hd1 & He1).
  destruct (shr_fexp prec emax mx ex lx) as [mrs' e'] eqn:E1. simpl in Hn1, Hd1, He1.
  set (m1 := round_nearest_even (shr_m mrs') (loc_of_shr_record mrs')).
  assert (Hm1 : 0 <= m1) by (apply round_nearest_even_nonneg, Hn1).
  assert (Hdm1 : Zdigits2 m1 + e' <= T + 1).
  { pose proof (round_nearest_even_digits (shr_m mrs') (loc_of_shr_record mrs') Hn1).
    fold m1 in H. lia. }
  destruct (shr_fexp_within m1 e' loc_Exact (T + 1) (Z.max E (T - 53)) Hm1 Hdm1 He1
              ltac:(lia) ltac:(lia))
    as (Hn2 & Hd2 & He2).
  destruct (shr_fexp prec emax m1 e' loc_Exact) as [mrs'' e''] eqn:E2. simpl in Hn2, Hd2, He2.
  destruct (shr_m mrs'') as [|p|p] eqn:Em; [exact I| |lia].
  assert (Hle : (e'' <=? emax - prec) = true) by (apply Z.leb_le; unfold emax, prec; lia).
  rewrite Hle. simpl in *. split; lia.
Qed.

Lemma of_Z_within z T :
  0 <= z -> z < 2 ^ T -> 0 <= T -> T <= 1023 ->
  within (T + 1) (Z.max 0 (T - 52)) (of_Z z).
Proof.
  intros Hz Hlt HT0 HT. unfold of_Z, binary_normalize.
  destruct z as [|p|p]; [exact I| |lia].
  pose proof (Zdigits2_le (Z.pos p) T Hz HT0 Hlt) as HD. simpl in HD.
  unfold binary_round, shl_align.
  destruct (fexp prec emax (Z.pos (digits2_pos p) + 0) - 0) as [|d|d] eqn:En.
  - apply binary_round_aux_within; simpl; lia.
  - apply binary_round_aux_within; simpl; lia.
  - assert (Hfexp : fexp prec emax (Z.pos (digits2_pos p) + 0) = Z.neg d) by lia.
    rewrite Hfexp.
    apply binary_round_aux_within; try lia.
    simpl Zdigits2. rewrite digits2_iter_xO. lia.
Qed.

Lemma div_within T1 E1 x sy m2 e2 :
  within T1 E1 x ->
  -1074 <= T1 - e2 -> T1 - e2 <= 1023 -> -1074 <= E1 - e2 -> E1 - e2 <= 971 ->
  within (T1 - e2 + 1) (Z.max (E1 - e2) (T1 - e2 - 52)) (div x (S754_finite sy m2 e2)).
Proof.
  intros Hx H1 H2 H3 H4. unfold div, SFdiv.
  destruct x as [sx|sx| |sx m1 e1]; simpl in Hx; try tauto.
  destruct Hx as [Hd He].
  unfold SFdiv_core_binary.
  set (e' := Z.min _ _). set (m' := match _ with Z.pos _ => _ | _ => _ end).
  assert (He' : e' <= e1 - e2) by (unfold e'; lia).
  assert (Hm' : 0 <= m' /\ Zdigits2 m' + e' <= Zdigits2 (Z.pos m1) + e1 - e2).
  { unfold m'. destruct (e1 - e2 - e') as [|s|s] eqn:Es.
    - split; lia.
    - rewrite Z.shiftl_mul_pow2 by lia. split.
      + assert (0 < 2 ^ Z.pos s) by (apply Z.pow_pos_nonneg; lia). lia.
      + pose proof (Zdigits2_shift (Z.pos m1) (Z.pos s) ltac:(lia) ltac:(lia)). lia.
    - lia. }
  destruct Hm' as [Hm'0 Hm'd].
  assert (Hq : 0 <= m' / Z.pos m2 <= m').
  { split; [apply Z.div_pos; lia|].
    apply Z.div_le_upper_bound; [lia|]. nia. }
  pose proof (Zdigits2_mono _ _ Hq) as Hqd.
  unfold Z.div in Hq, Hqd.
  destruct (Z.div_eucl m' (Z.pos m2)) as [q r]. simpl in Hq, Hqd.
  change (Zdigits2 (Z.pos m1)) with (Z.pos (digits2_pos m1)) in Hm'd.
  apply binary_round_aux_within; lia.
Qed.

Lemma mul_within T1 E1 x sy m2 e2 :
  within T1 E1 x ->
  -1074 <= T1 + (Z.pos (digits2_pos m2) + e2) -> T1 + (Z.pos (digits2_pos m2) + e2) <= 1023 ->
  -1074 <= E1 + e2 -> E1 + e2 <= 971 ->
  within (T1 + (Z.pos (digits2_pos m2) + e2) + 1)
    (Z.max (E1 + e2) (T1 + (Z.pos (digits2_pos m2) + e2) - 52))
    (mul x (S754_finite sy m2 e2)).
Proof.
  intros Hx H1 H2 H3 H4. unfold mul, SFmul.
  destruct x as [sx|sx| |sx m1 e1]; simpl in Hx; try tauto.
  destruct Hx as [Hd He].
  pose proof (Zdigits2_mul (Z.pos m1) (Z.pos m2) ltac:(lia) ltac:(lia)) as Hmul.
  simpl Zdigits2 in Hmul.
  apply binary_round_aux_within; try lia.
  change (Z.pos (m1 * m2)) with (Z.pos m1 * Z.pos m2). simpl Zdigits2 in *. lia.
Qed.

Lemma within_weaken T E T' E' x : within T E x -> T <= T' -> E <= E' -> within T' E' x.
Proof. destruct x; simpl; intros; try tauto. lia. Qed.

Lemma nearest_integer_upper m e T :
  Zdigits2 (Z.pos m) + e <= T -> 0 <= T -> nearest_integer false m e < 2 ^ (T + 1).
Proof.
  intros Hd HT. unfold nearest_integer, cond_Zopp.
  pose proof (Zdigits2_upper (Z.pos m) ltac:(lia)) as Hu.
  pose proof (Zdigits2_nonneg (Z.pos m)) as Hn.
  destruct e as [|p|p].
  - rewrite Z.pow_0_r, Z.mul_1_r.
    assert (2 ^ Zdigits2 (Z.pos m) <= 2 ^ (T + 1)) by (apply Z.pow_le_mono_r; lia). lia.
  - assert (Hp : 2 ^ (Zdigits2 (Z.pos m) + Z.pos p) <= 2 ^ (T + 1))
      by (apply Z.pow_le_mono_r; lia).
    rewrite Z.pow_add_r in Hp by lia.
    assert (0 < 2 ^ Z.pos p) by (apply Z.pow_pos_nonneg; lia). nia.
  - apply Z.div_lt_upper_bound; [apply Z.pow_pos_nonneg; lia|].
    rewrite <- Z.pow_add_r by lia.
    assert (Hp : 2 ^ (Zdigits2 (Z.pos m) + 1) <= 2 ^ (Z.pos p + 1 + (T + 1) - 1))
      by (apply Z.pow_le_mono_r; lia).
    assert (Hp2 : 2 ^ Z.pos p <= 2 ^ (Z.pos p + 1 + (T + 1) - 1))
      by (apply Z.pow_le_mono_r; lia).
    replace (Z.pos p + 1 + (T + 1)) with (Z.succ (Z.pos p + 1 + (T + 1) - 1)) by lia.
    rewrite Z.pow_succ_r by lia.
    rewrite Z.pow_add_r, Z.pow_1_r in Hp by lia. lia.
Qed.

(** [(n / c) * k] for the two constants of the sources, with [n < 2^53]. *)
Lemma scaled_within n (c k : Z) sc mc ec sk mk ek :
  Z.of_nat n < 2 ^ 53 ->
  of_Z c = S754_finite sc mc ec -> of_Z k = S754_finite sk mk ek ->
  -100 <= ec <= 100 -> -100 <= ek <= 100 -> Z.pos (digits2_pos mk) = 53 ->
  within 400 400 (mul (div (of_nat n) (of_Z c)) (of_Z k)).
Proof.
  intros Hn Hc Hk Hec Hek Hdk. rewrite Hc, Hk.
  pose proof (of_Z_within (Z.of_nat n) 53 ltac:(lia) Hn ltac:(lia) ltac:(lia)) as H0.
  fold (of_nat n) in H0.
  apply (within_weaken _ _ 54 1) in H0; [|lia|lia].
  pose proof (div_within _ _ _ sc mc ec H0 ltac:(lia) ltac:(lia) ltac:(lia) ltac:(lia)) as H1.
  apply (within_weaken _ _ 155 155) in H1; [|lia|lia].
  pose proof (mul_within _ _ _ sk mk ek H1 ltac:(lia) ltac:(lia) ltac:(lia) ltac:(lia)) as H2.
  apply (within_weaken _ _ 400 400) in H2; [exact H2|lia|lia].
Qed.

(** Below 2^53 bytes the size-based duration is a finite integer. *)
Lemma file_duration_finite bs :
  Z.of_nat (List.length bs) < 2 ^ 53 ->
  is_finite (file_duration (Some bs)) = true /\ is_integer (file_duration (Some bs)) = true.
Proof.
  intros Hsize. unfold file_duration.
  pose proof (scaled_within (List.length bs) 16000 1000 _ _ _ _ _ _ Hsize of_Z_16000 of_Z_1000
                ltac:(lia) ltac:(lia) eq_refl) as H2.
  assert (Hnn : nonneg (mul (div (of_nat (List.length bs)) (of_Z 16000)) (of_Z 1000))).
  { rewrite of_Z_16000, of_Z_1000. apply mul_nonneg, div_nonneg, of_nat_nonneg. }
  set (x := mul (div (of_nat (List.length bs)) (of_Z 16000)) (of_Z 1000)) in *.
  destruct Hnn as [_ Hs].
  destruct x as [s|s| |s m e]; simpl in H2; try tauto; simpl in Hs; subst s.
  destruct H2 as [Hd He]. simpl Math_round.
  pose proof (nearest_integer_upper m e 400 Hd ltac:(lia)) as Hup.
  pose proof (of_Z_within _ 401 (nearest_integer_nonneg m e) Hup ltac:(lia) ltac:(lia)) as Hw.
  apply within_finite in Hw.
  split; [exact Hw|].
  destruct (of_Z_integral (nearest_integer false m e) (nearest_integer_nonneg m e)) as [Hi|Hi];
    [exact Hi|].
  rewrite Hi in Hw. discriminate.
Qed.

(** For a text shorter than 2^53 characters the estimate is finite. *)
Lemma estimateDuration_finite text :
  Z.of_nat (String.length text) < 2 ^ 53 -> is_finite (estimateDuration text) = true.
Proof.
  intros Hlen. unfold estimateDuration, charsPerSecond.
  pose proof (scaled_within (String.length text) 12 1000 _ _ _ _ _ _ Hlen of_Z_12 of_Z_1000
                ltac:(lia) ltac:(lia) eq_refl) as H2.
  apply within_finite in H2.
  assert (Hn : is_nan (mul (div (of_nat (String.length text)) (of_Z 12)) (of_Z 1000)) = false).
  { destruct (mul _ _); simpl in *; congruence. }
  destruct (Math_max_lower (of_Z 500) _ eq_refl Hn ltac:(discriminate)) as (_ & _ & [-> | ->]);
    [reflexivity | exact H2].
Qed.

Lemma forallb_below (P : nat -> bool) (N : Z) :
  forallb P (seq 0 (Z.to_nat N)) = true -> forall n, Z.of_nat n < N -> P n = true.
Proof.
  intros H n Hn. rewrite forallb_forall in H. apply H, in_seq. lia.
Qed.

Lemma rounds_to_spec_checked : forallb rounds_to_spec (seq 0 (Z.to_nat 4096)) = true.
Proof. vm_compute. reflexivity. Qed.

(** ** The duration estimator *)

(** C2, counterexample.  For a text of seven characters the estimator returns
    the unrounded binary64 product 583.33..., not [round(1000 * 7 / 12) = 583]. *)
Lemma C2_counterexample : estimateDuration "1234567" <> estimate_spec "1234567".
Proof. vm_compute. discriminate. Qed.

(** C2, as amended.  For every string the estimator returns
    [max(500, (len / 12) * 1000)] evaluated in binary64 with no rounding to an
    integer; the value is at least 500; rounding it gives the value of the
    specification for every text shorter than 4096 characters; and for a text
    of 120 characters it is exactly 10000, as the specification says. *)
Theorem C2_estimate_unrounded (text : string) :
  estimateDuration text =
    Math_max (of_Z 500) (mul (div (of_nat (String.length text)) (of_Z 12)) (of_Z 1000))
  /\ leb (of_Z 500) (estimateDuration text) = true
  /\ (Z.of_nat (String.length text) < 4096 ->
      Math_round (estimateDuration text) = estimate_spec text)
  /\ (String.length text = 120%nat ->
      estimateDuration text = of_Z 10000 /\ estimateDuration text = estimate_spec text).
Proof.
  split; [reflexivity|].
  split; [apply estimateDuration_floor|].
  split.
  - intros H. apply same_number_eq.
    exact (forallb_below rounds_to_spec 4096 rounds_to_spec_checked _ H).
  - intros H. unfold estimateDuration, estimate_spec. rewrite H. split; reflexivity.
Qed.

Lemma C2_estimate_unrounded_witness :
  Math_round (estimateDuration "hello") = estimate_spec "hello"
  /\ estimateDuration
       "012345678901234567890123456789012345678901234567890123456789012345678901234567890123456789012345678901234567890123456789"
     = of_Z 10000.
Proof.
  split.
  - destruct (C2_estimate_unrounded "hello") as (_ & _ & H & _). apply H. reflexivity.
  - destruct (C2_estimate_unrounded
                "012345678901234567890123456789012345678901234567890123456789012345678901234567890123456789012345678901234567890123456789")
      as (_ & _ & _ & H).
    apply (proj1 (H eq_refl)).
Defined.

(** ** The dispatcher *)

Lemma member_defined j k : j <> JNull -> member (Some j) k = Normal (get j k).
Proof. destruct j; simpl; congruence. Qed.

(** [config?.<key> || {}] is never [null] or [undefined]. *)
Lemma settings_defined config key :
  exists j, settings config key = Some j /\ j <> JNull.
Proof.
  unfold settings. eexists. split; [reflexivity|].
  unfold js_or. destruct (opt_member config key) as [j|]; [|discriminate].
  destruct (truthy (Some j)) eqn:E; [|discriminate].
  intros ->. discriminate.
Qed.









(** The constructors do throw on a missing settings object; the dispatcher
    never hands them one. *)
Example createPiperTTS_throws_on_undefined :
  createPiperTTS sample_process None =
    Throw (TypeError "Cannot read properties of null or undefined: command").
Proof. reflexivity. Qed.







(** ** Adapters: what a call does to the store and the trace *)

Section AdapterFacts.
Context {rt : Runtime}.

Local Arguments getAudioDuration : simpl never.
Local Arguments estimateDuration : simpl never.
Local Arguments js_or : simpl never.

Lemma getAudioDuration_spec f w :
  fst (getAudioDuration f w) = file_duration (files w !! f) /\
  files (snd (getAudioDuration f w)) = files w /\
  invocations (snd (getAudioDuration f w)) = invocations w /\
  writes (snd (getAudioDuration f w)) = writes w.
Proof.
  unfold getAudioDuration, file_duration, invocations, writes. simpl.
  destruct (files w !! f); simpl; rewrite ?filter_app; simpl; rewrite ?app_nil_r; auto.
Qed.

Ltac world_step :=
  match goal with
  | H : context [getAudioDuration ?f ?w] |- _ =>
      let d := fresh "dur" in let w2 := fresh "w" in
      let Hd := fresh "Hd" in let Hf := fresh "Hf" in let Hi := fresh "Hi" in
      let Hwr := fresh "Hwr" in
      destruct (getAudioDuration_spec f w) as (Hd & Hf & Hi & Hwr);
      destruct (getAudioDuration f w) as [d w2]; simpl in Hd, Hf, Hi, Hwr
  | |- context [getAudioDuration ?f ?w] =>
      let d := fresh "dur" in let w2 := fresh "w" in
      let Hd := fresh "Hd" in let Hf := fresh "Hf" in let Hi := fresh "Hi" in
      let Hwr := fresh "Hwr" in
      destruct (getAudioDuration_spec f w) as (Hd & Hf & Hi & Hwr);
      destruct (getAudioDuration f w) as [d w2]; simpl in Hd, Hf, Hi, Hwr
  end.

Ltac unfold_synthesize H :=
  cbn in H;
  unfold synthesize_dummy, synthesize_piper, synthesize_voicevox, synthesize_openai,
    synthesize_google, synthesize_azure, synthesize_generic, synthesize_custom,
    pipe_to_file, pipe_broken, broken_off, query_url, log_params, httpPost, httpPostBinary,
    writeFileSync, execSync, existsSync in H;
  cbn in H.

Ltac split_cases :=
  repeat first
    [ world_step
    | match goal with
      | H : context [bool_decide ?P] |- _ => destruct (bool_decide_reflect P)
      | H : context [match ?x with _ => _ end] |- _ => destruct x eqn:?
      | H : (_, _) = (_, _) |- _ => inversion H; clear H; subst
      end; cbn in * ];
  try discriminate.

Ltac absurd_lookup :=
  match goal with
  | i : is_Some None |- _ => destruct i; discriminate
  | i : ~ is_Some (Some _) |- _ => exfalso; apply i; eauto
  end.

(** A call that resolves with an audio URL names its cache entry, and the
    entry's file is there afterwards. *)
Lemma resolved_audio_cached a text dir o w r w' u :
  synthesize a text dir o w = (Resolved r, w') ->
  audioUrl r = Some u ->
  exists entry, cache_entry a text = Some entry /\ u = cache_url entry /\
                is_Some (files w' !! cache_path dir entry).
Proof.
  intros H Hu.
  destruct a; unfold_synthesize H; split_cases.
  all: cbn in Hu; try discriminate; injection Hu as <-.
  all: try absurd_lookup.
  all: eexists; split; [reflexivity|]; split; [reflexivity|].
  all: unfold cache_path; simpl.
  all: try congruence.
  all: try (match goal with
            | Hf : files ?w2 = _ |- is_Some (files ?w2 !! _) => rewrite Hf
            end;
            first [ eexists; apply lookup_insert_eq | assumption ]).
  all: first [ eexists; apply lookup_insert_eq
             | match goal with i : is_Some _ |- _ => exact i end ].
Qed.

Lemma custom_rejects command text dir o w :
  synthesize (CustomTTS command) text dir o w = (Rejected (ReferenceError "path"), w).
Proof. reflexivity. Qed.

(** An adapter that finds its cache entry stops there. *)
Lemma cache_hit a text dir o w entry :
  cache_entry a text = Some entry ->
  (forall command, a <> CustomTTS command) ->
  is_Some (files w !! cache_path dir entry) ->
  exists r w', synthesize a text dir o w = (Resolved r, w') /\
               audioUrl r = Some (cache_url entry) /\
               files w' = files w /\ invocations w' = invocations w.
Proof.
  intros He Hc Hfile.
  destruct a; cbn in He; try discriminate; injection He as <-;
    try (exfalso; eapply Hc; reflexivity);
    unfold cache_path in Hfile; simpl in Hfile;
    cbn; unfold synthesize_piper, synthesize_voicevox, synthesize_openai, synthesize_google,
      synthesize_azure, synthesize_generic, existsSync; cbn;
    rewrite (bool_decide_eq_true_2 _ Hfile);
    try world_step;
    (eexists; eexists; split; [reflexivity|]; split; [reflexivity|]);
    unfold invocations in *; cbn in *;
    rewrite ?Hf, ?Hi, ?filter_app; cbn; rewrite ?app_nil_r; auto.
Qed.

(** Where a resolved call takes its duration from. *)
Lemma resolved_duration_lookup a text dir o w r w' :
  synthesize a text dir o w = (Resolved r, w') ->
  if is_hosted a then
    exists entry, cache_entry a text = Some entry /\
                  audioUrl r = Some (cache_url entry) /\
                  duration r = file_duration (files w' !! cache_path dir entry)
  else duration r = estimateDuration text.
Proof.
  intros H.
  destruct a; unfold_synthesize H; split_cases; try reflexivity.
  all: eexists; split; [reflexivity|]; split; [reflexivity|].
  all: unfold cache_path; cbn [fst snd].
  all: match goal with
       | Hf : files ?w2 = _ |- _ = file_duration (files ?w2 !! _) => rewrite Hf
       end; reflexivity.
Qed.

Lemma resolved_duration a text dir o w r w' :
  synthesize a text dir o w = (Resolved r, w') ->
  if is_hosted a then
    exists entry bs, cache_entry a text = Some entry /\
                     audioUrl r = Some (cache_url entry) /\
                     files w' !! cache_path dir entry = Some bs /\
                     duration r = file_duration (Some bs)
  else duration r = estimateDuration text.
Proof.
  intros H. pose proof (resolved_duration_lookup _ _ _ _ _ _ _ H) as Hd.
  destruct (is_hosted a); [|exact Hd].
  destruct Hd as (entry & He & Hu & Hd).
  destruct (resolved_audio_cached _ _ _ _ _ _ _ _ H Hu) as (entry' & He' & _ & [bs Hbs]).
  assert (entry' = entry) by congruence. subst entry'.
  exists entry, bs. rewrite Hd, Hbs. auto.
Qed.

(** A call that runs no command line reaching beyond its output file leaves
    the store as it was or with one binding changed: that of its own cache
    path. *)
Lemma synthesize_footprint a text dir o w p w' :
  synthesize a text dir o w = (p, w') ->
  shell_confined a o = true ->
  files w' = files w \/
  exists entry bs, cache_entry a text = Some entry /\
                   files w' = <[cache_path dir entry := bs]> (files w).
Proof.
  intros H Hc.
  destruct a; unfold shell_confined in Hc; unfold_synthesize H; split_cases.
  all: repeat match goal with
              | |- context [leave _ ?c _] => destruct c; cbn
              | Hf : files ?w2 = _ |- context [files ?w2] => rewrite Hf
              end.
  all: first [ left; reflexivity
             | right; eexists (_, _); eexists; split; reflexivity ].
Qed.

(** A rejection that is neither a failed write nor follows a response that
    broke off happened before anything was written. *)
Lemma rejected_before_write a text dir o w e w' :
  synthesize a text dir o w = (Rejected e, w') ->
  on_write o = Written ->
  unbroken (on_request o) = true ->
  files w' = files w.
Proof.
  intros H Hw Hb. unfold unbroken in Hb.
  destruct a; unfold_synthesize H; rewrite ?Hw in H; split_cases; reflexivity.
Qed.

(** On a miss, a call that resolves with audio has written its cache path. *)
Lemma resolved_miss_writes a text dir o w r w' entry :
  synthesize a text dir o w = (Resolved r, w') ->
  audioUrl r <> None ->
  cache_entry a text = Some entry ->
  files w !! cache_path dir entry = None ->
  shell_confined a o = true ->
  exists bs, files w' = <[cache_path dir entry := bs]> (files w).
Proof.
  intros H Hu He Hmiss Hc.
  destruct a; cbn in He; try discriminate; injection He as <-;
    unfold cache_path in *; cbn [fst snd] in *; unfold shell_confined in Hc;
    unfold_synthesize H; split_cases.
  all: try (exfalso; apply Hu; reflexivity).
  all: repeat match goal with
              | |- context [leave _ ?c _] => destruct c; cbn in *
              | Hf : files ?w2 = _ |- context [files ?w2] => rewrite Hf
              end.
  all: try (eexists; reflexivity).
  all: match goal with
       | i : is_Some (files _ !! _) |- _ =>
           exfalso; destruct i as [x Hx];
           pose proof (eq_trans (eq_sym Hx) Hmiss); discriminate
       end.
Qed.

Lemma trace_leave path content w : trace (leave path content w) = trace w.
Proof. destruct content; reflexivity. Qed.

(** With a disk that fails midway, a call that has begun a write leaves the
    store as it was but for the partial content at its cache path, and does
    not resolve with audio. *)
Lemma failed_write_leaves_partial a text dir o w p w' e partial :
  synthesize a text dir o w = (p, w') ->
  on_write o = WriteFailed e (Some partial) ->
  writes w' <> writes w ->
  exists entry, cache_entry a text = Some entry /\
                files w' = <[cache_path dir entry := partial]> (files w) /\
                forall r, p = Resolved r -> audioUrl r = None.
Proof.
  intros H Hw Hbegun.
  destruct a; unfold_synthesize H; rewrite ?Hw in H; split_cases.
  all: try (exfalso; apply Hbegun; unfold writes in *; cbn;
            try match goal with
                | Hwr : filter _ (trace ?w2) = _ |- filter _ (trace ?w2) = _ => rewrite Hwr
                end;
            repeat (rewrite ?filter_app, ?trace_leave; cbn); rewrite ?app_nil_r;
            reflexivity).
  all: eexists; split; [reflexivity|]; split; [reflexivity|].
  all: intros r Hr; inversion Hr; reflexivity.
Qed.

(** The generic adapter never looks at the status code. *)
Lemma generic_ignores_status url method headers bodyTemplate audioPath audioFormat
    text dir status status' contentType body d w :
  synthesize (GenericAPITTS url method headers bodyTemplate audioPath audioFormat) text dir
    (answers status contentType body d) w
  = synthesize (GenericAPITTS url method headers bodyTemplate audioPath audioFormat) text dir
      (answers status' contentType body d) w.
Proof. reflexivity. Qed.


(** ** Adapters: failure styles, the trace and the cache as a whole *)

Lemma classic_custom (a : adapter) :
  (exists command, a = CustomTTS command) \/ (forall command, a <> CustomTTS command).
Proof. destruct a; eauto; right; discriminate. Qed.

(** X1.  The Piper and the VOICEVOX adapter never reject.  Piper resolves
    unless, on a cache miss, [execSync] never returns from its command line;
    VOICEVOX resolves unless, on a cache miss, the answer to one of its two
    requests breaks off after the headers with no error following: then the
    promise stays pending.  A result has the estimate from the text as
    duration and either null or the URL of the cache entry as audio URL; and
    on a cache miss it is without audio whenever something failed: for Piper
    when the command was not found at construction or [execSync] throws, for
    VOICEVOX when the URL cannot be built or is refused, when a scale cannot
    be converted to a string for the log line, when a request ends with an
    error or the timeout, or when the write fails. *)
Theorem local_adapters_never_reject (text outputDir : string) (o : oracle) (w : world) :
  let url := audio_url (md5_hex text) "wav" in
  let miss := files w !! path_join outputDir (md5_hex text ++ ".wav") = None in
  (forall command model available,
      let call := fst (synthesize (PiperTTS command model available) text outputDir o w) in
      (exists u,
          call = Resolved {| audioUrl := u; duration := estimateDuration text |} /\
          (u = None \/ u = Some url) /\
          (miss -> available = false \/ command_fails (on_exec o) = true -> u = None))
      \/ (call = Unsettled blocked /\ miss /\ available = true /\
          command_blocks (on_exec o) = true))
  /\ (forall baseUrl speaker pitchScale speedScale intonationScale,
      let call := fst (synthesize (VoicevoxTTS baseUrl speaker pitchScale speedScale
                                     intonationScale) text outputDir o w) in
      (exists u,
          call = Resolved {| audioUrl := u; duration := estimateDuration text |} /\
          (u = None \/ u = Some url) /\
          (miss ->
           ~ returns (query_url baseUrl speaker text) \/ URL_ok baseUrl = false
           \/ ~ returns (log_params pitchScale speedScale intonationScale)
           \/ request_fails (on_request o) = true
           \/ request_fails (on_second_request o) = true
           \/ on_write o <> Written ->
           u = None))
      \/ (call = Unsettled incomplete /\ miss /\
          (breaks_off_silently (on_request o) = true
           \/ breaks_off_silently (on_second_request o) = true))).
Proof.
  intros url miss. subst url miss. split; intros.
  - subst call. cbn.
    unfold synthesize_piper, execSync, existsSync, command_fails, command_blocks. cbn.
    destruct (bool_decide_reflect (is_Some (files w !! path_join outputDir (md5_hex text ++ ".wav"))))
      as [Hhit|Hmiss]; cbn.
    { left. eexists. split; [reflexivity|]. split; [auto|].
      intros E. destruct Hhit as [x Hx]. congruence. }
    assert (Hm : files w !! path_join outputDir (md5_hex text ++ ".wav") = None).
    { destruct (files w !! _) eqn:E; [exfalso; apply Hmiss; eauto | reflexivity]. }
    destruct available; cbn; [|left; eexists; split; [reflexivity|]; auto].
    destruct (on_exec o) as [out|e out|[|e|] store]; cbn; [| | | |right; auto];
      repeat match goal with
             | |- context [bool_decide ?P] => destruct (bool_decide P); cbn
             end;
      left; eexists; (split; [reflexivity|]); (split; [auto|]);
      intros _ [?|?]; try discriminate; reflexivity.
  - subst call. cbn. unfold synthesize_voicevox, httpPost, httpPostBinary, writeFileSync, existsSync,
      request_fails, breaks_off_silently. cbn.
    destruct (bool_decide_reflect (is_Some (files w !! path_join outputDir (md5_hex text ++ ".wav"))))
      as [Hhit|Hmiss]; cbn.
    { left. eexists. split; [reflexivity|]. split; [auto|]. intros E. destruct Hhit as [x Hx]. congruence. }
    assert (Hm : files w !! path_join outputDir (md5_hex text ++ ".wav") = None).
    { destruct (files w !! _) eqn:E; [exfalso; apply Hmiss; eauto | reflexivity]. }
    destruct (query_url baseUrl speaker text) as [q|e] eqn:Eq; cbn;
      [|left; eexists; split; [reflexivity|]; auto].
    destruct (URL_ok baseUrl) eqn:Eu; cbn;
      [|left; eexists; split; [reflexivity|]; auto].
    destruct (on_request o) as [e|s1 t1 b1|s1 t1 b1 [e|]|]; cbn;
      try (left; eexists; split; [reflexivity|]; auto; fail);
      try (right; auto; fail).
    match goal with
    | |- context [if negb ?b then _ else _] => destruct b; cbn
    end; [|left; eexists; split; [reflexivity|]; auto].
    destruct (log_params pitchScale speedScale intonationScale) as [[]|e] eqn:El; cbn;
      [|left; eexists; split; [reflexivity|]; auto].
    destruct (on_second_request o) as [e|s2 t2 b2|s2 t2 b2 [e|]|]; cbn;
      try (left; eexists; split; [reflexivity|]; auto; fail);
      try (right; auto; fail).
    destruct (on_write o) as [|e p]; cbn; left; eexists; (split; [reflexivity|]); (split; [auto|]).
    + intros _ [H|[H|[H|[H|[H|H]]]]]; try discriminate; try congruence;
        exfalso; apply H; eexists; reflexivity.
    + auto.
Qed.
(** X2.  A result without audio comes from the Disabled, the Piper or the
    VOICEVOX adapter only, and its duration is the estimate from the text: a
    hosted adapter that resolves always names an audio file, and the custom
    adapter never resolves. *)
Theorem null_audio_only_from_local_adapters (a : adapter) (text outputDir : string)
    (o : oracle) (w w' : world) (r : SynthesisResult) :
  synthesize a text outputDir o w = (Resolved r, w') ->
  audioUrl r = None ->
  (a = DummyTTS
   \/ (exists command model available, a = PiperTTS command model available)
   \/ (exists baseUrl speaker pitchScale speedScale intonationScale,
         a = VoicevoxTTS baseUrl speaker pitchScale speedScale intonationScale))
  /\ duration r = estimateDuration text.
Proof.
  intros H Hu. pose proof (resolved_duration_lookup _ _ _ _ _ _ _ H) as Hd.
  destruct a; cbn [is_hosted] in Hd;
    try (destruct Hd as (entry & _ & Hu' & _); rewrite Hu in Hu'; discriminate).
  - split; [left; reflexivity | exact Hd].
  - split; [right; left; eauto | exact Hd].
  - split; [right; right; eauto 10 | exact Hd].
  - rewrite custom_rejects in H. discriminate.
Qed.

(** X3.  A Piper adapter whose command was not found at construction spawns
    nothing: [synthesize] probes the cache path once and does nothing else.
    It leaves the store as it was, and resolves with the cached URL when the
    entry is there and without audio otherwise. *)
Theorem piper_unavailable_is_inert (command model : json) (text outputDir : string)
    (o : oracle) (w : world) :
  let outputFile := path_join outputDir (md5_hex text ++ ".wav") in
  let call := synthesize (PiperTTS command model false) text outputDir o w in
  fst call =
    Resolved {| audioUrl := if bool_decide (is_Some (files w !! outputFile))
                            then Some (audio_url (md5_hex text) "wav") else None;
                duration := estimateDuration text |}
  /\ files (snd call) = files w
  /\ trace (snd call) = (trace w ++ [FsProbe outputFile])%list.
Proof.
  cbn. unfold synthesize_piper, existsSync. cbn.
  destruct (bool_decide _); cbn; auto.
Qed.

(** X4.  No adapter retries: a call only appends to the trace, and what it
    appends holds at most one process spawn or network request, two for
    VOICEVOX ([audio_query], then [synthesis]) and none for the Disabled and
    the custom adapter. *)
Theorem synthesize_invocation_bound (a : adapter) (text outputDir : string)
    (o : oracle) (w : world) :
  exists evs,
    trace (snd (synthesize a text outputDir o w)) = (trace w ++ evs)%list /\
    (List.length (filter is_invocation evs) <=
       match a with
       | DummyTTS | CustomTTS _ => 0
       | VoicevoxTTS _ _ _ _ _ => 2
       | _ => 1
       end)%nat.
Proof.
  destruct a; cbn;
    unfold synthesize_dummy, synthesize_piper, synthesize_voicevox, synthesize_openai,
      synthesize_google, synthesize_azure, synthesize_generic, synthesize_custom,
      pipe_to_file, pipe_broken, broken_off, query_url, log_params, httpPost, httpPostBinary,
      writeFileSync, execSync, getAudioDuration, existsSync, leave, emit; cbn;
    repeat match goal with
           | |- context [on_exec o] => destruct (on_exec o) as [[?|]|? [?|]|[|?|] ?]; cbn
           | |- context [on_request o] =>
               destruct (on_request o) as [?|? ? ?|? ? ? [?|]|]; cbn
           | |- context [on_second_request o] =>
               destruct (on_second_request o) as [?|? ? ?|? ? ? [?|]|]; cbn
           | |- context [on_write o] => destruct (on_write o) as [|? [?|]]; cbn
           | |- context [bool_decide ?P] => destruct (bool_decide P); cbn
           | |- context [?m !! ?k] => destruct (m !! k); cbn
           | |- context [if ?b then _ else _] => destruct b; cbn
           | |- context [match ?x with _ => _ end] => destruct x; cbn
           end.
  all: try (exists []; rewrite app_nil_r; split; [reflexivity | vm_compute; lia]).
  all: rewrite <- ?app_assoc; eexists; (split; [reflexivity | ]).
  all: vm_compute; lia.
Qed.

(** X5.  No adapter removes or overwrites a cache entry itself.  Unless
    an available Piper adapter runs a command line that reaches beyond its
    output file (the text is part of the line handed to the shell), whatever
    a call does and however it ends, every file that was in the store before
    is there afterwards with the same contents, a stale or broken entry
    included. *)
Theorem cache_append_only (a : adapter) (text outputDir : string) (o : oracle) (w : world) :
  shell_confined a o = true ->
  files w ⊆ files (snd (synthesize a text outputDir o w)).
Proof.
  intros Hconfined.
  destruct (synthesize a text outputDir o w) as [p w'] eqn:H. cbn [snd].
  destruct (synthesize_footprint _ _ _ _ _ _ _ H Hconfined) as [-> | (entry & bs & He & Hf)];
    [reflexivity|].
  destruct (files w !! cache_path outputDir entry) as [old|] eqn:E.
  - assert (Hsame : files w' = files w); [|rewrite Hsame; reflexivity].
    destruct (classic_custom a) as [[command ->] | Hc].
    + rewrite custom_rejects in H. injection H as _ <-. reflexivity.
    + destruct (cache_hit a text outputDir o w entry He Hc) as (r2 & w2 & H2 & _ & Hf2 & _);
        [rewrite E; eauto|].
      rewrite H in H2. injection H2 as _ <-. exact Hf2.
  - rewrite Hf. apply insert_subseteq. exact E.
Qed.

(** X6.  The cache is shared by every adapter that computes the same entry
    name.  Once some adapter has resolved a text with audio, any adapter with
    a cache check and the same entry name for that text resolves with the
    same URL without a request or a spawn.  Piper and VOICEVOX name the entry
    by the text alone, so a change of the Piper model, of the VOICEVOX
    speaker or scales, or a switch between the two engines replays the old
    audio; OpenAI and Azure share entries when their voices have the same
    name. *)
Theorem cache_shared_between_adapters (a b : adapter) (text outputDir : string)
    (o1 o2 : oracle) (w w1 : world) (r1 : SynthesisResult) (u : string) :
  synthesize a text outputDir o1 w = (Resolved r1, w1) ->
  audioUrl r1 = Some u ->
  cache_entry b text = cache_entry a text ->
  (forall command, b <> CustomTTS command) ->
  exists r2 w2,
    synthesize b text outputDir o2 w1 = (Resolved r2, w2) /\
    audioUrl r2 = Some u /\
    invocations w2 = invocations w1 /\
    files w2 = files w1.
Proof.
  intros H Hu Hab Hc.
  destruct (resolved_audio_cached _ _ _ _ _ _ _ _ H Hu) as (entry & He & -> & Hfile).
  rewrite He in Hab.
  destruct (cache_hit b text outputDir o2 w1 entry Hab Hc Hfile)
    as (r2 & w2 & H2 & Hu2 & Hf2 & Hi2).
  exists r2, w2. auto.
Qed.


(** X8.  The VOICEVOX adapter never reads a status code.  On a cache miss,
    when the URL of the query can be built (base URL and speaker can be
    converted to strings, and the text can be encoded: it holds no lone
    surrogate) and is accepted as a URL, and the three scales can be
    converted to strings for the log line, whenever the answer to
    [audio_query] arrives whole and is truthy (any JSON value but null,
    false, 0 and the empty string, or any non-empty body that is not JSON),
    the answer to [synthesis] arrives whole and the write succeeds, the body
    of the answer to [synthesis] becomes the cache entry and the call
    resolves with its URL, whatever the two status codes and content types
    are. *)
Theorem voicevox_caches_any_status
    (baseUrl speaker pitchScale speedScale intonationScale : json)
    (text outputDir : string) (w : world)
    (status1 status2 : Z) (type1 type2 : option string) (query audio : list byte) :
  files w !! path_join outputDir (md5_hex text ++ ".wav") = None ->
  ToString_throws baseUrl = false ->
  ToString_throws speaker = false ->
  is_Some (encodeURIComponent text) ->
  URL_ok baseUrl = true ->
  returns (log_params pitchScale speedScale intonationScale) ->
  truthy (Some (default (JStr (string_of_list_byte query)) (JSON_parse query))) = true ->
  let o := {| on_exec := Exited None;
              on_request := HttpResponse status1 type1 query;
              on_second_request := HttpResponse status2 type2 audio;
              on_write := Written |} in
  let call := synthesize (VoicevoxTTS baseUrl speaker pitchScale speedScale intonationScale)
                text outputDir o w in
  fst call = Resolved {| audioUrl := Some (audio_url (md5_hex text) "wav");
                         duration := estimateDuration text |}
  /\ files (snd call) = <[path_join outputDir (md5_hex text ++ ".wav") := audio]> (files w).
Proof.
  intros Hmiss Hbase Hspeaker [encoded Henc] Hurl [[] Hlog] Hq. cbn.
  unfold synthesize_voicevox, query_url, httpPost, httpPostBinary, writeFileSync, existsSync.
  cbn.
  rewrite bool_decide_eq_false_2
    by (intros [x Hx]; pose proof (eq_trans (eq_sym Hx) Hmiss); discriminate).
  rewrite Hbase, Henc, Hspeaker, Hurl. cbn in Hq |- *. rewrite Hq, Hlog. cbn. auto.
Qed.

(** A text that cannot be encoded, or a base URL or speaker that cannot be
    converted to a string, ends the call before any request: it resolves
    without audio. *)
Lemma voicevox_unbuilt_url (baseUrl speaker pitchScale speedScale intonationScale : json)
    (text outputDir : string) (o : oracle) (w : world) :
  files w !! path_join outputDir (md5_hex text ++ ".wav") = None ->
  ~ returns (query_url baseUrl speaker text) ->
  let call := synthesize (VoicevoxTTS baseUrl speaker pitchScale speedScale intonationScale)
                text outputDir o w in
  fst call = Resolved {| audioUrl := None; duration := estimateDuration text |}
  /\ files (snd call) = files w
  /\ invocations (snd call) = invocations w.
Proof.
  intros Hmiss Hq. cbn. unfold synthesize_voicevox, existsSync. cbn.
  rewrite bool_decide_eq_false_2
    by (intros [x Hx]; pose proof (eq_trans (eq_sym Hx) Hmiss); discriminate).
  destruct (query_url baseUrl speaker text) as [q|e].
  - exfalso. apply Hq. eexists. reflexivity.
  - cbn. unfold invocations. cbn. rewrite filter_app. cbn. rewrite app_nil_r. auto.
Qed.

End AdapterFacts.

(** ** Adapters: the claims *)

Section AdapterClaims.
Context {rt : Runtime}.

(** C4, as amended.  For every text and output directory the Disabled
    engine resolves, whatever the world would answer, with a null audio URL
    and the duration [max(500, (len / 12) * 1000)], evaluated in binary64 and
    not rounded, and leaves the store and the trace as they were: it performs
    no filesystem or network operation.  That duration is at least 500;
    rounding it gives the estimate of the specification for every text
    shorter than 4096 characters; and it is that estimate, 500, for a text of
    at most six characters. *)
Theorem C4_disabled_engine (text outputDir : string) (o : oracle) (w : world) :
  let unrounded :=
    Math_max (of_Z 500) (mul (div (of_nat (String.length text)) (of_Z 12)) (of_Z 1000)) in
  synthesize createDummyTTS text outputDir o w =
    (Resolved {| audioUrl := None; duration := unrounded |}, w)
  /\ leb (of_Z 500) unrounded = true
  /\ (Z.of_nat (String.length text) < 4096 -> Math_round unrounded = estimate_spec text)
  /\ ((String.length text <= 6)%nat ->
      unrounded = of_Z 500 /\ unrounded = estimate_spec text).
Proof.
  intros unrounded.
  assert (E : unrounded = estimateDuration text) by reflexivity.
  split; [reflexivity|].
  split; [rewrite E; apply estimateDuration_floor|].
  split.
  - intros H. rewrite E. apply same_number_eq.
    exact (forallb_below rounds_to_spec 4096 rounds_to_spec_checked _ H).
  - intros H. subst unrounded. unfold estimate_spec.
    assert (Hlen : In (String.length text) (seq 0 7)) by (apply in_seq; lia).
    cbn [seq In] in Hlen.
    repeat (destruct Hlen as [<- | Hlen]; [split; reflexivity|]). destruct Hlen.
Qed.

(** C10.  A configured command yields the custom adapter, and for every
    command, text and world, including a command that would succeed, its
    [synthesize] rejects with the ReferenceError raised by the unbound
    [path] before anything is executed; it never resolves, so it never returns
    an audio URL. *)
Theorem C10_custom_always_rejects (command : json) (text outputDir : string)
    (o : oracle) (w : world) :
  bound index_js_scope "path" = false
  /\ createCustomTTS (Some (JObj [("command", command)])) =
       (if truthy (Some command) then Normal (CustomTTS command, [])
        else Normal (DummyTTS, []))
  /\ synthesize (CustomTTS command) text outputDir o w = (Rejected (ReferenceError "path"), w)
  /\ (forall r w', synthesize (CustomTTS command) text outputDir o w <> (Resolved r, w')).
Proof.
  split; [reflexivity|].
  split; [reflexivity|].
  split; [reflexivity|].
  intros r w'. cbn. discriminate.
Qed.

(** C3, as amended.  For every adapter and text, once a call has resolved
    with an audio URL, the next call with the same text, whatever the world
    would answer, resolves with the same audio URL, makes no network request
    and spawns no process, and leaves the store unchanged; the URL is that of
    the cache entry, which is computed from the text and the constants of the
    adapter only. *)
Theorem C3_cache_hit_after_success (a : adapter) (text outputDir : string)
    (o1 o2 : oracle) (w w1 : world) (r1 : SynthesisResult) (u : string) :
  synthesize a text outputDir o1 w = (Resolved r1, w1) ->
  audioUrl r1 = Some u ->
  exists r2 w2 entry,
    synthesize a text outputDir o2 w1 = (Resolved r2, w2) /\
    audioUrl r2 = Some u /\
    invocations w2 = invocations w1 /\
    files w2 = files w1 /\
    cache_entry a text = Some entry /\ u = cache_url entry.
Proof.
  intros H Hu.
  destruct (resolved_audio_cached _ _ _ _ _ _ _ _ H Hu) as (entry & He & -> & Hfile).
  assert (Hc : forall command, a <> CustomTTS command).
  { intros command ->. rewrite custom_rejects in H. discriminate. }
  destruct (cache_hit a text outputDir o2 w1 entry He Hc Hfile)
    as (r2 & w2 & H2 & Hu2 & Hf2 & Hi2).
  exists r2, w2, entry. repeat split; auto.
Qed.

(** C7, as amended.  When a call resolves, a hosted adapter (OpenAI, Google,
    Azure, generic) reports the duration derived from the size of the file at
    its cache path, [Math.round((size / 16000) * 1000)] evaluated in binary64,
    which depends neither on the audio contents nor on the text length; every
    other adapter (Piper, VOICEVOX, custom, Disabled) reports the estimate
    from the text length, also when it has produced an audio file. *)
Theorem C7_duration_source (a : adapter) (text outputDir : string) (o : oracle)
    (w w' : world) (r : SynthesisResult) :
  synthesize a text outputDir o w = (Resolved r, w') ->
  if is_hosted a then
    exists entry bs,
      cache_entry a text = Some entry /\
      audioUrl r = Some (cache_url entry) /\
      files w' !! cache_path outputDir entry = Some bs /\
      duration r = Math_round (mul (div (of_nat (List.length bs)) (of_Z 16000)) (of_Z 1000))
  else duration r = estimateDuration text.
Proof. apply resolved_duration. Qed.

(** C9, as amended.  Whenever [synthesize] resolves, the duration is present,
    is not NaN and is not negative.  Estimated from the text (Piper, VOICEVOX,
    custom, Disabled) it is at least 500, finite for a text shorter than 2^53
    characters, and need not be an integer.  Derived from the file (hosted
    adapters) it is the binary64 value of a non-negative integer, possibly 0,
    and an integer in the sense of [Number.isInteger] for a file smaller than
    2^53 bytes. *)
Theorem C9_duration_present (a : adapter) (text outputDir : string) (o : oracle)
    (w w' : world) (r : SynthesisResult) :
  synthesize a text outputDir o w = (Resolved r, w') ->
  is_nan (duration r) = false /\ sign (duration r) = false /\
  if is_hosted a then
    exists entry bs,
      cache_entry a text = Some entry /\
      files w' !! cache_path outputDir entry = Some bs /\
      (exists n : Z, 0 <= n /\ duration r = of_Z n) /\
      (Z.of_nat (List.length bs) < 2 ^ 53 ->
       is_finite (duration r) = true /\ is_integer (duration r) = true)
  else
    leb (of_Z 500) (duration r) = true /\
    (Z.of_nat (String.length text) < 2 ^ 53 -> is_finite (duration r) = true).
Proof.
  intros H. pose proof (resolved_duration _ _ _ _ _ _ _ H) as Hd.
  destruct (is_hosted a).
  - destruct Hd as (entry & bs & He & _ & Hbs & ->).
    destruct (file_duration_integral (Some bs)) as ([Hn Hs] & Hi & _).
    split; [exact Hn|]. split; [exact Hs|].
    exists entry, bs. repeat split; auto; apply file_duration_finite; assumption.
  - rewrite Hd. destruct (estimateDuration_floor text) as [Hle [Hn Hs]].
    repeat split; auto. apply estimateDuration_finite.
Qed.

(** C8, as amended.  Every call of an adapter that writes through [fs]
    (VOICEVOX and the hosted adapters), and every Piper call whose command
    line touches nothing but its output file, changes the store at no path
    other than its own cache path; a Piper command line that reaches further
    is bounded by nothing, the text being part of it.  A call that rejects
    with the disk intact and the response unbroken (request error, error
    status, unparsable or incomplete JSON, the unbound [path]) leaves the
    store unchanged.  A call that resolves with audio wrote nothing on a
    cache hit and, the command line being confined, exactly its cache path on
    a miss.  The adapters write straight to the cache path: when the disk
    fails midway in a call that has begun a write, the store afterwards is
    the store before with the partial content at that path, and the call
    does not resolve with audio; and whenever a
    call has changed the store and left something at its cache path,
    complete or not, the next call takes it for a cache hit: it resolves with
    the URL, without a request or a spawn and without touching the store. *)
Theorem C8_cache_footprint (a : adapter) (text outputDir : string) (o : oracle)
    (w w' : world) (p : promise) :
  synthesize a text outputDir o w = (p, w') ->
  (shell_confined a o = true ->
   files w' = files w \/
   exists entry bs, cache_entry a text = Some entry /\
                    files w' = <[cache_path outputDir entry := bs]> (files w))
  /\ (forall e, p = Rejected e -> on_write o = Written -> unbroken (on_request o) = true ->
        files w' = files w)
  /\ (forall r entry, p = Resolved r -> audioUrl r <> None ->
        cache_entry a text = Some entry ->
        if bool_decide (is_Some (files w !! cache_path outputDir entry))
        then files w' = files w
        else shell_confined a o = true ->
             exists bs, files w' = <[cache_path outputDir entry := bs]> (files w))
  /\ (forall e partial,
        on_write o = WriteFailed e (Some partial) ->
        writes w' <> writes w ->
        exists entry, cache_entry a text = Some entry /\
                      files w' = <[cache_path outputDir entry := partial]> (files w) /\
                      forall r, p = Resolved r -> audioUrl r = None)
  /\ (forall entry o2,
        cache_entry a text = Some entry ->
        files w' <> files w ->
        is_Some (files w' !! cache_path outputDir entry) ->
        exists r2 w2,
          synthesize a text outputDir o2 w' = (Resolved r2, w2) /\
          audioUrl r2 = Some (cache_url entry) /\
          invocations w2 = invocations w' /\
          files w2 = files w').
Proof.
  intros H. split; [|split; [|split; [|split]]].
  - intros Hc. eapply synthesize_footprint; eauto.
  - intros e -> Hw Hb. eapply rejected_before_write; eauto.
  - intros r entry -> Hu He. case_bool_decide as Hc.
    + assert (Hn : forall command, a <> CustomTTS command).
      { intros command ->. rewrite custom_rejects in H. discriminate. }
      destruct (cache_hit a text outputDir o w entry He Hn Hc) as (r2 & w2 & H2 & _ & Hf & _).
      rewrite H in H2. injection H2 as _ <-. exact Hf.
    + intros Hconfined. eapply resolved_miss_writes; eauto.
      destruct (files w !! cache_path outputDir entry) eqn:E; [|reflexivity].
      exfalso. apply Hc. eauto.
  - intros e partial Hw Hbegun. eapply failed_write_leaves_partial; eauto.
  - intros entry o2 He Hchanged Hfile.
    assert (Hn : forall command, a <> CustomTTS command).
    { intros command ->. rewrite custom_rejects in H. injection H as _ <-.
      apply Hchanged. reflexivity. }
    destruct (cache_hit a text outputDir o2 w' entry He Hn Hfile)
      as (r2 & w2 & H2 & Hu & Hf & Hi).
    exists r2, w2. auto.
Qed.

End AdapterClaims.

Section AdapterExamples.
Local Existing Instance sample_runtime.

(** [path] is bound in piper.js, which imports it, and not in index.js. *)
Example path_binding :
  bound piper_js_scope "path" = true /\ bound index_js_scope "path" = false.
Proof. split; reflexivity. Qed.

(** C4, counterexample.  For a text of seven characters the Disabled engine
    resolves with the unrounded 583.33..., not with the estimate of the
    specification, which is 583. *)
Lemma C4_counterexample :
  fst (synthesize createDummyTTS "1234567" "/audio" quiet empty_world) <>
    Resolved {| audioUrl := None; duration := estimate_spec "1234567" |}.
Proof. vm_compute. discriminate. Qed.

Lemma C4_disabled_engine_witness :
  synthesize createDummyTTS "hello" "/audio" quiet empty_world =
    (Resolved {| audioUrl := None; duration := estimate_spec "hello" |}, empty_world)
  /\ Math_round (estimateDuration "1234567") = estimate_spec "1234567".
Proof.
  destruct (C4_disabled_engine "hello" "/audio" quiet empty_world) as (H1 & _ & _ & H4).
  destruct (C4_disabled_engine "1234567" "/audio" quiet empty_world) as (_ & _ & H3 & _).
  split.
  - destruct H4 as [_ E]; [cbn; lia|].
    exact (eq_trans H1 (f_equal (fun d => (Resolved {| audioUrl := None; duration := d |},
                                           empty_world)) E)).
  - apply H3. reflexivity.
Defined.

(** C3, counterexample.  Piper is installed; the first call times out and
    returns no audio, the second call runs the command again and returns an
    audio URL: the URLs differ and the second call spawned a process. *)
Lemma C3_counterexample :
  let '(p1, w1) := synthesize sample_piper "hi" "/audio" exec_fails empty_world in
  let '(p2, w2) := synthesize sample_piper "hi" "/audio" (exec_writes wav16) w1 in
  ~ (exists r1 r2, p1 = Resolved r1 /\ p2 = Resolved r2 /\
                   audioUrl r1 = audioUrl r2 /\ invocations w2 = invocations w1).
Proof.
  vm_compute. intros (r1 & r2 & H1 & H2 & Hu & Hi). discriminate Hi.
Qed.

Lemma C3_cache_hit_after_success_witness :
  exists r2 w2,
    synthesize sample_piper "hi" "/audio" exec_fails
      (snd (synthesize sample_piper "hi" "/audio" (exec_writes wav16) empty_world))
    = (Resolved r2, w2) /\
    audioUrl r2 = Some "/audio/md5(hi).wav" /\
    invocations w2 = [Exec "piper"].
Proof.
  set (first := synthesize sample_piper "hi" "/audio" (exec_writes wav16) empty_world).
  assert (H1 : first = (Resolved {| audioUrl := Some "/audio/md5(hi).wav";
                                    duration := estimateDuration "hi" |}, snd first))
    by (vm_compute; reflexivity).
  destruct (C3_cache_hit_after_success sample_piper "hi" "/audio" (exec_writes wav16) exec_fails
              empty_world (snd first) _ "/audio/md5(hi).wav" H1 eq_refl)
    as (r2 & w2 & entry & H & Hu & Hi & _).
  exists r2, w2. split; [exact H|]. split; [exact Hu|].
  rewrite Hi. vm_compute. reflexivity.
Defined.

(** C7, counterexample.  Piper produces a file of 16 bytes, for which the
    size formula gives 1 ms, and reports the text estimate of 500 ms. *)
Lemma C7_counterexample :
  exists r w' bs,
    synthesize sample_piper "hi" "/audio" (exec_writes wav16) empty_world = (Resolved r, w') /\
    audioUrl r = Some "/audio/md5(hi).wav" /\
    files w' !! "/audio/md5(hi).wav" = Some bs /\
    duration r <> duration_spec (List.length bs).
Proof.
  eexists; eexists; eexists. split; [reflexivity|]. split; [reflexivity|].
  split; [vm_compute; reflexivity|]. vm_compute. discriminate.
Qed.

Lemma C7_duration_source_witness :
  (exists r w', synthesize sample_piper "hi" "/audio" (exec_writes wav16) empty_world
                = (Resolved r, w') /\ duration r = estimateDuration "hi")
  /\ (exists r w' bs,
        synthesize sample_openai "hi" "/audio" (answers 200 None mp3_4 Written) empty_world
        = (Resolved r, w') /\
        files w' !! "/audio/md5(hialloy).mp3" = Some bs /\
        duration r = Math_round (mul (div (of_nat (List.length bs)) (of_Z 16000)) (of_Z 1000))).
Proof.
  split.
  - set (call := synthesize sample_piper "hi" "/audio" (exec_writes wav16) empty_world).
    assert (H : call = (Resolved {| audioUrl := Some "/audio/md5(hi).wav";
                                    duration := estimateDuration "hi" |}, snd call))
      by (vm_compute; reflexivity).
    eexists; eexists. split; [exact H|].
    exact (C7_duration_source sample_piper "hi" "/audio" (exec_writes wav16) empty_world _ _ H).
  - set (call := synthesize sample_openai "hi" "/audio" (answers 200 None mp3_4 Written)
                   empty_world).
    assert (H : call = (Resolved {| audioUrl := Some "/audio/md5(hialloy).mp3";
                                    duration := file_duration (Some mp3_4) |}, snd call))
      by (vm_compute; reflexivity).
    destruct (C7_duration_source sample_openai "hi" "/audio" _ empty_world _ _ H)
      as (entry & bs & He & _ & Hbs & Hd).
    injection He as <-.
    exists {| audioUrl := Some "/audio/md5(hialloy).mp3";
              duration := file_duration (Some mp3_4) |}, (snd call), bs.
    split; [exact H|]. split; [exact Hbs | exact Hd].
Defined.

(** The size-based estimate is computed in binary64 as
    [Math.round((size / 16000) * 1000)]: at 8008 bytes the product is just
    below 500.5 and rounds to 500, where the exact quotient rounds to 501. *)
Example file_duration_tie :
  file_duration (Some (repeat x00 (Z.to_nat 8008))) = of_Z 500
  /\ duration_spec (Z.to_nat 8008) = of_Z 501.
Proof. split; vm_compute; reflexivity. Qed.

(** Files of fewer than 8 bytes get a duration of 0, a file of 8 bytes gets 1. *)
Example file_duration_small :
  forallb (fun size => same_number (file_duration (Some (repeat x00 size))) (of_Z 0))
    (seq 0 8) = true
  /\ file_duration (Some (repeat x00 8)) = of_Z 1.
Proof. split; vm_compute; reflexivity. Qed.

(** C9, counterexample.  The Disabled engine resolves a text of seven
    characters with a duration that is not an integer, and the OpenAI adapter
    resolves an empty 200 response with an audio URL and a duration of 0. *)
Lemma C9_counterexample :
  (exists r w', synthesize DummyTTS "1234567" "/audio" quiet empty_world = (Resolved r, w') /\
                is_integer (duration r) = false)
  /\ (exists r w', synthesize sample_openai "hi" "/audio" (answers 200 None [] Written)
                     empty_world = (Resolved r, w') /\
                   audioUrl r <> None /\ duration r = of_Z 0).
Proof.
  split; eexists; eexists.
  - split; [reflexivity|]. vm_compute. reflexivity.
  - split; [vm_compute; reflexivity|]. split; [discriminate|reflexivity].
Qed.

Lemma C9_duration_present_witness :
  (leb (of_Z 500) (estimateDuration "1234567") = true /\
   is_finite (estimateDuration "1234567") = true)
  /\ exists r w',
       synthesize sample_openai "hi" "/audio" (answers 200 None mp3_4 Written) empty_world
       = (Resolved r, w') /\ is_integer (duration r) = true.
Proof.
  split.
  - destruct (C9_duration_present DummyTTS "1234567" "/audio" quiet empty_world _ _ eq_refl)
      as (_ & _ & Hle & Hfin).
    split; [exact Hle | apply Hfin; reflexivity].
  - set (call := synthesize sample_openai "hi" "/audio" (answers 200 None mp3_4 Written)
                   empty_world).
    assert (H : call = (Resolved {| audioUrl := Some "/audio/md5(hialloy).mp3";
                                    duration := file_duration (Some mp3_4) |}, snd call))
      by (vm_compute; reflexivity).
    destruct (C9_duration_present sample_openai "hi" "/audio" _ empty_world _ _ H)
      as (_ & _ & entry & bs & He & Hbs & _ & Hint).
    eexists; eexists. split; [exact H|].
    apply Hint.
    assert (Hsome : Some bs = Some mp3_4).
    { rewrite <- Hbs. injection He as <-. vm_compute. reflexivity. }
    injection Hsome as ->. reflexivity.
Defined.

(** C8, counterexample.  The OpenAI adapter streams a 200 response straight
    to the cache path; the disk fills up after two bytes and the call rejects.
    The two bytes stay at the cache path, and the next call takes them for a
    cache hit and resolves with the audio URL. *)
Lemma C8_counterexample :
  let broken := answers 200 None mp3_4 (WriteFailed (SystemError "ENOSPC") (Some [x49; x44])) in
  let '(p1, w1) := synthesize sample_openai "hi" "/audio" broken empty_world in
  let '(p2, w2) := synthesize sample_openai "hi" "/audio" quiet w1 in
  p1 = Rejected (SystemError "ENOSPC")
  /\ files w1 !! "/audio/md5(hialloy).mp3" = Some [x49; x44]
  /\ exists r2, p2 = Resolved r2 /\ audioUrl r2 = Some "/audio/md5(hialloy).mp3".
Proof. vm_compute. split; [reflexivity|]. split; [reflexivity|]. eauto. Qed.

Lemma C8_cache_footprint_witness :
  files (snd (synthesize sample_openai "hi" "/audio" (answers 500 None error_page Written)
                empty_world)) = ∅
  /\ (exists bs,
        files (snd (synthesize sample_openai "hi" "/audio" (answers 200 None mp3_4 Written)
                      empty_world))
        = <[cache_path "/audio" (md5_hex "hialloy", "mp3") := bs]> ∅)
  /\ exists entry,
       files (snd (synthesize sample_openai "hi" "/audio"
                     (answers 200 None mp3_4
                        (WriteFailed (SystemError "ENOSPC") (Some [x49; x44])))
                     empty_world))
       = <[cache_path "/audio" entry := [x49; x44]]> ∅.
Proof.
  split; [|split].
  - set (call := synthesize sample_openai "hi" "/audio" (answers 500 None error_page Written)
                   empty_world).
    assert (H : call = (Rejected (ApiError "OpenAI" 500 error_page), snd call))
      by (vm_compute; reflexivity).
    destruct (C8_cache_footprint sample_openai "hi" "/audio" _ empty_world _ _ H)
      as (_ & Hrej & _).
    exact (Hrej _ eq_refl eq_refl eq_refl).
  - set (call := synthesize sample_openai "hi" "/audio" (answers 200 None mp3_4 Written)
                   empty_world).
    assert (H : call = (Resolved {| audioUrl := Some "/audio/md5(hialloy).mp3";
                                    duration := file_duration (Some mp3_4) |}, snd call))
      by (vm_compute; reflexivity).
    destruct (C8_cache_footprint sample_openai "hi" "/audio" _ empty_world _ _ H)
      as (_ & _ & Hres & _).
    exact (Hres _ (md5_hex "hialloy", "mp3") eq_refl ltac:(discriminate) eq_refl eq_refl).
  - set (call := synthesize sample_openai "hi" "/audio"
                   (answers 200 None mp3_4
                      (WriteFailed (SystemError "ENOSPC") (Some [x49; x44])))
                   empty_world).
    assert (H : call = (Rejected (SystemError "ENOSPC"), snd call))
      by (vm_compute; reflexivity).
    destruct (C8_cache_footprint sample_openai "hi" "/audio" _ empty_world _ _ H)
      as (_ & _ & _ & Hpartial & _).
    destruct (Hpartial (SystemError "ENOSPC") [x49; x44] eq_refl) as (entry & _ & Hf & _).
    + intros E. vm_compute in E. discriminate E.
    + exists entry. exact Hf.
Defined.

(** A Piper command line that reaches beyond its output file: the store
    after the call is whatever the line made of it, here nothing at all. *)
Example piper_shell_reaches_the_store :
  let reaching := {| on_exec := ExecRewrote Returns ∅; on_request := on_request quiet;
                     on_second_request := on_second_request quiet; on_write := Written |} in
  shell_confined sample_piper reaching = false
  /\ files (snd (synthesize sample_piper "hi" "/audio" reaching
                   (stored "/audio/md5(other).wav" wav16))) = ∅.
Proof. split; reflexivity. Qed.

(** The answer to [audio_query] breaks off after its headers and no error
    follows: the promise of the VOICEVOX adapter stays pending, and nothing is
    written. *)
Example voicevox_broken_answer_hangs :
  let breaking := {| on_exec := Exited None;
                     on_request := Broken 200 (Some "application/json") [] None;
                     on_second_request := on_second_request quiet; on_write := Written |} in
  fst (synthesize sample_voicevox "hi" "/audio" breaking empty_world) = Unsettled incomplete
  /\ files (snd (synthesize sample_voicevox "hi" "/audio" breaking empty_world)) = ∅.
Proof. split; reflexivity. Qed.

(** C6, the failing inputs.  The generic adapter receives status 500 with an
    HTML error page: it resolves with an audio URL and stores the page as the
    audio file.  The Google adapter receives a 200 response whose body is not
    JSON: the promise is left pending instead of being rejected. *)
Theorem C6_status_and_parse_errors_not_rejected :
  (let '(p, w') := synthesize sample_generic "hello" "/audio"
                     (answers 500 (Some "text/html") error_page Written) empty_world in
   p = Resolved {| audioUrl := Some "/audio/md5(hellohttps://tts.example/speak).mp3";
                   duration := file_duration (Some error_page) |}
   /\ files w' !! "/audio/md5(hellohttps://tts.example/speak).mp3" = Some error_page)
  /\ fst (synthesize sample_google "hello" "/audio"
            (answers 200 (Some "application/json") error_page Written) empty_world)
     = Unsettled SyntaxError.
Proof. vm_compute. auto. Qed.

End AdapterExamples.

(** ** The call site *)

Lemma queueMessage_returns clientId message now queues :
  can_queue queues clientId = true ->
  exists queues', queueMessage clientId message now queues = Normal queues' /\
                  can_queue queues' clientId = true.
Proof.
  unfold can_queue, queueMessage. intros H.
  destruct (queues !! clientId) as [q|] eqn:E.
  - eexists. split; [reflexivity|].
    rewrite bool_decide_eq_true_2; [reflexivity|]. rewrite lookup_insert_eq. eauto.
  - rewrite bool_decide_eq_false_2 in H by (intros [? ?]; discriminate).
    simpl in H. apply negb_true_iff in H. rewrite H.
    eexists. split; [reflexivity|].
    rewrite bool_decide_eq_true_2; [reflexivity|]. rewrite lookup_insert_eq. eauto.
Qed.


Section CallSite.
Context {rt : Runtime}.

Local Arguments estimateDuration : simpl never.


End CallSite.

Section CallSiteExamples.
Local Existing Instance sample_runtime.



(** A client id that names a member of [Object.prototype]: [queueMessage]
    throws inside the [catch] block and the handler sends nothing. *)
Example speak_escapes_for_inherited_client_id :
  fst (speak sample_custom "/audio"
         {| req_clientId := Some "constructor"; req_text := Some "hi"; req_expression := None |}
         (of_Z 0) quiet fresh_server)
  = Escaped (TypeError "messageQueues[clientId].push is not a function").
Proof. reflexivity. Qed.

End CallSiteExamples.

(** * Further properties of the code *)

(** ** The duration formulas at their floors *)

Lemma same_number_refl x : same_number x x = true.
Proof.
  destruct x as [s|s| |s m e]; cbn; rewrite ?eqb_reflx, ?Pos.eqb_refl, ?Z.eqb_refl; reflexivity.
Qed.

Lemma same_number_iff x y : same_number x y = true <-> x = y.
Proof. split; [apply same_number_eq | intros ->; apply same_number_refl]. Qed.

Lemma floor_up_to_six_checked : forallb floor_up_to_six (seq 0 (Z.to_nat 4096)) = true.
Proof. vm_compute. reflexivity. Qed.

Lemma silent_below_eight_checked : forallb silent_below_eight (seq 0 (Z.to_nat 4096)) = true.
Proof. vm_compute. reflexivity. Qed.

Lemma file_duration_length bs :
  file_duration (Some bs) = file_duration (Some (repeat x00 (List.length bs))).
Proof. unfold file_duration. rewrite repeat_length. reflexivity. Qed.

(** X9.  The floor of the estimator applies exactly up to six characters: for
    a text shorter than 4096 characters, [estimateDuration] returns 500 if and
    only if the text has at most six characters (seven characters give
    583.33...). *)
Theorem estimate_floor_threshold (text : string) :
  Z.of_nat (String.length text) < 4096 ->
  (estimateDuration text = of_Z 500 <-> (String.length text <= 6)%nat).
Proof.
  intros H.
  pose proof (forallb_below floor_up_to_six 4096 floor_up_to_six_checked _ H) as Hc.
  unfold floor_up_to_six, floor_applies in Hc. apply eqb_prop in Hc.
  change (estimate_of_length (String.length text)) with (estimateDuration text) in Hc.
  rewrite <- same_number_iff, Hc. apply Nat.leb_le.
Qed.

(** X10.  [getAudioDuration] has no floor.  It returns 0 for a path with no
    file, and for a file shorter than 4096 bytes it returns 0 if and only if
    the file has fewer than eight bytes: an empty or truncated cache entry is
    reported as audio of no length. *)
Theorem file_duration_zero_threshold (filePath : string) (w : world) :
  match files w !! filePath with
  | None => fst (getAudioDuration filePath w) = of_Z 0
  | Some bs =>
      Z.of_nat (List.length bs) < 4096 ->
      (fst (getAudioDuration filePath w) = of_Z 0 <-> (List.length bs < 8)%nat)
  end.
Proof.
  destruct (getAudioDuration_spec filePath w) as (-> & _).
  destruct (files w !! filePath) as [bs|]; [|reflexivity].
  intros H.
  pose proof (forallb_below silent_below_eight 4096 silent_below_eight_checked _ H) as Hc.
  unfold silent_below_eight, silent in Hc. apply eqb_prop in Hc.
  rewrite file_duration_length, <- same_number_iff, Hc. apply Nat.ltb_lt.
Qed.

(** ** Constructors and the dispatcher, continued *)

Lemma js_or_truthy a b : truthy (Some b) = true -> truthy (Some (js_or a b)) = true.
Proof.
  intros Hb. unfold js_or. destruct a as [j|]; [|exact Hb].
  destruct (truthy (Some j)) eqn:E; auto.
Qed.

(** X11.  The credential of a hosted adapter (OpenAI, Google, Azure).  The
    constructor never throws on a settings object.  The adapter holds the
    configured key when that is truthy, whatever the environment says;
    otherwise the environment variable, when it is set and not empty; and
    when neither is there, the constructor returns the Disabled adapter and
    warns once.  An adapter named after the provider is returned exactly when
    a key was found, and then nothing is logged. *)
Theorem hosted_credentials (pr : provider) (p : process) (config : json) :
  config <> JNull ->
  exists a ws,
    construct pr p (Some config) = Normal (a, ws)
    /\ key_of a =
         (if truthy (get config (key_member pr)) then get config (key_member pr)
          else match env p (key_variable pr) with
               | Some k => if String.eqb k "" then None else Some (JStr k)
               | None => None
               end)
    /\ match key_of a with
       | Some _ => ws = []
       | None => a = DummyTTS /\ ws = [key_missing pr]
       end
    /\ name a = match key_of a with Some _ => provider_name pr | None => "none" end.
Proof.
  intros Hc.
  destruct pr; cbn [construct key_member key_variable key_missing provider_name];
    unfold createOpenAITTS, createGoogleTTS, createAzureTTS;
    repeat (rewrite (member_defined _ _ Hc); cbn [bind]);
    unfold js_or_undef, env_var.
  all: match goal with
       | |- context [get ?c ?k] =>
           destruct (get c k) as [key|] eqn:Ek
       end.
  all: try (destruct (truthy (Some key)) eqn:Et).
  all: try (rewrite Et).
  all: try solve [eexists; eexists; split; [reflexivity|]; cbn; rewrite ?Et; auto].
  all: cbn [truthy].
  all: match goal with
       | |- context [env ?q ?v] => destruct (env q v) as [k|]
       end; cbn [fmap option_fmap option_map truthy].
  all: try destruct (String.eqb k "") eqn:Ee; cbn [negb].
  all: try solve [eexists; eexists; split; [reflexivity|]; cbn; rewrite ?Et; auto].
Qed.

Ltac open_constructor :=
  match goal with
  | H : context [settings ?config ?k] |- _ =>
      let j := fresh "j" in let Hj := fresh "Hj" in let E := fresh "E" in
      destruct (settings_defined config k) as (j & E & Hj); rewrite E in H; clear E;
      unfold createPiperTTS, createVoicevoxTTS, createOpenAITTS, createGoogleTTS,
        createAzureTTS, createGenericAPITTS, createCustomTTS in H;
      repeat (rewrite (member_defined _ _ Hj) in H; cbn [bind] in H)
  end.

Ltac close_constructor :=
  repeat match goal with
         | H : context [match ?x with _ => _ end] |- _ => destruct x eqn:?
         | H : Normal _ = Normal _ |- _ => inversion H; clear H; subst
         end;
  try discriminate.

Lemma is_tag_unique engine s t :
  is_tag engine s = true -> is_tag engine t = true -> s = t.
Proof.
  destruct engine; cbn; try discriminate.
  intros H1 H2. apply String.eqb_eq in H1, H2. congruence.
Qed.

Ltac tag_clash :=
  match goal with
  | H1 : is_tag ?e ?s = true, H2 : is_tag ?e ?t = true |- _ =>
      pose proof (is_tag_unique e s t H1 H2); discriminate
  | H1 : is_tag ?e ?s = true, H2 : is_tag ?e ?s = false |- _ =>
      rewrite H1 in H2; discriminate
  end.

Ltac dispatched :=
  split;
  [ first [left; reflexivity | right; assumption]
  | split;
    [ first [ left; reflexivity
            | right; left; split; [reflexivity|]; eexists; split; [reflexivity|discriminate]
            | right; right; split; [reflexivity|]; eauto ]
    | split;
      [ intros Hp;
        first [ discriminate
              | tag_clash
              | match goal with
                | |- exists c m, PiperTTS ?x ?y _ = _ => exists x, y
                end;
                match goal with
                | H : which _ _ = _ |- _ => rewrite H
                end; reflexivity ]
      | intros Hv; first [discriminate | tag_clash | split; [reflexivity|]; eauto 10] ] ] ].

(** X12.  What the dispatcher returns for a tag.  The adapter is the Disabled
    one or the one the tag of the configuration names (the tag [api] names the
    adapter called [generic-api]).  At most one warning is logged: with the
    Disabled adapter when a credential, the URL or the tag itself is not
    usable, or with a Piper adapter whose command was not found.  The tags
    [piper] and [voicevox] never fall back to the Disabled adapter: [piper]
    always gives a Piper adapter, available or not as [which] says, and
    [voicevox] a VOICEVOX adapter with no warning, no check being made that
    the engine is reachable. *)
Theorem dispatch_by_tag (p : process) (config : jsval) (a : adapter) (ws : list warning) :
  createTTSEngine p config = Normal (a, ws) ->
  let engine := js_or (opt_member config "engine") (JStr "none") in
  (a = DummyTTS \/ is_tag engine (tag_of a) = true)
  /\ (ws = []
      \/ (a = DummyTTS /\ exists warned, ws = [warned] /\ warned <> PiperNotFound)
      \/ (ws = [PiperNotFound] /\ exists command model, a = PiperTTS command model false))
  /\ (is_tag engine "piper" = true ->
      exists command model, a = PiperTTS command model (which p command))
  /\ (is_tag engine "voicevox" = true ->
      ws = [] /\ exists baseUrl speaker pitchScale speedScale intonationScale,
                   a = VoicevoxTTS baseUrl speaker pitchScale speedScale intonationScale).
Proof.
  intros H engine. unfold createTTSEngine in H. fold engine in H.
  destruct (is_tag engine "piper") eqn:T1; [open_constructor; close_constructor; dispatched|].
  destruct (is_tag engine "voicevox") eqn:T2; [open_constructor; close_constructor; dispatched|].
  destruct (is_tag engine "openai") eqn:T3; [open_constructor; close_constructor; dispatched|].
  destruct (is_tag engine "google") eqn:T4; [open_constructor; close_constructor; dispatched|].
  destruct (is_tag engine "azure") eqn:T5; [open_constructor; close_constructor; dispatched|].
  destruct (is_tag engine "api") eqn:T6; [open_constructor; close_constructor; dispatched|].
  destruct (is_tag engine "custom") eqn:T7; [open_constructor; close_constructor; dispatched|].
  destruct (is_tag engine "none") eqn:T8; close_constructor; dispatched.
Qed.

Lemma js_or_fallback a b : truthy_or_fallback (js_or a b, b).
Proof.
  unfold truthy_or_fallback, js_or. cbn [fst snd].
  destruct a as [j|]; [destruct (truthy (Some j)) eqn:E; [auto|]|];
    destruct (truthy (Some b)); auto.
Qed.

(** X13.  The constants of the adapter the dispatcher returns, for every
    configuration.  Every constant that the constructor checks (the API key
    or subscription key, the URL of the generic adapter, the command of the
    custom adapter) is truthy.  Every constant that the constructor guards
    with [||] is truthy, or it is the right-hand side of its [||] and that
    is falsy, which is so for [pitchScale] (0.0), [voiceName] (null) and the
    body template (null) only: command, model, base URL, speaker, speed and
    intonation scale, voice, language code, gender, region, method, headers,
    audio path and format are never empty or missing. *)
Theorem adapter_constants_guarded (p : process) (config : jsval) (a : adapter)
    (ws : list warning) :
  createTTSEngine p config = Normal (a, ws) ->
  Forall (fun c => truthy (Some c) = true) (checked a)
  /\ Forall truthy_or_fallback (guarded a)
  /\ Forall (fun pair => truthy (Some (snd pair)) = true -> truthy (Some (fst pair)) = true)
       (guarded a).
Proof.
  intros H.
  assert (Hg : Forall (fun c => truthy (Some c) = true) (checked a)
               /\ Forall truthy_or_fallback (guarded a)).
  { unfold createTTSEngine in H.
    repeat match type of H with
           | (if ?b then _ else _) = _ =>
               destruct b; [try open_constructor; close_constructor|]
           end.
    all: try (inversion H; subst).
    all: cbn [guarded checked]; split;
      repeat match goal with |- Forall _ _ => constructor end.
    all: first [ assumption | apply js_or_fallback ]. }
  destruct Hg as [Hc Hg]. split; [exact Hc|]. split; [exact Hg|].
  eapply Forall_impl; [exact Hg|].
  intros [c d] [Ht | [_ Hf]] Hd; cbn [fst snd] in *; congruence.
Qed.

(** ** The message queues *)

Lemma queueMessage_pending clientId message now queues queues' :
  queueMessage clientId message now queues = Normal queues' ->
  queues' = <[clientId := (pending queues clientId ++ [stamped message now])%list]> queues.
Proof.
  unfold queueMessage, pending, stamped.
  destruct (queues !! clientId) as [q|]; [|destruct (inherited clientId)];
    cbn; intros H; inversion H; reflexivity.
Qed.

(** X14.  A queued message is delivered once and in order.  After
    [queueMessage] has returned, the next poll of [/api/message] for that
    client answers with the messages that were waiting followed by the new
    one, stamped with the time, and empties the queue; a second poll answers
    with an empty list; and the queues of the other clients are the same as
    before. *)
Theorem queued_message_delivered_once (clientId : string) (message : list (string * json))
    (now : number) (queues queues' : gmap string (list json)) :
  queueMessage clientId message now queues = Normal queues' ->
  api_message (Some clientId) queues' =
    Drained (delivery (pending queues clientId ++ [stamped message now]))
            (<[clientId := []]> queues)
  /\ api_message (Some clientId) (<[clientId := []]> queues) =
       Drained (delivery []) (<[clientId := []]> queues)
  /\ forall other, other <> clientId ->
       pending (<[clientId := []]> queues) other = pending queues other.
Proof.
  intros H. apply queueMessage_pending in H. subst queues'.
  unfold api_message, delivery.
  change (default "phantom-vrm-client" (Some clientId)) with clientId.
  rewrite !lookup_insert_eq, !insert_insert_eq.
  repeat split.
  intros other Hne. unfold pending. rewrite lookup_insert_ne by congruence. reflexivity.
Qed.

(** X15.  A client id that names a member inherited from [Object.prototype]
    (other than [__proto__]) and has no queue yet: [queueMessage] throws for
    it, but a poll of [/api/message] answers 200 with a body that has no
    [messages] member and creates the queue, after which [queueMessage]
    succeeds for the same id. *)
Theorem poll_claims_inherited_id (clientId : string) (message : list (string * json))
    (now : number) (queues : gmap string (list json)) :
  inherited clientId = true ->
  clientId <> "__proto__" ->
  queues !! clientId = None ->
  queueMessage clientId message now queues =
    Throw (TypeError "messageQueues[clientId].push is not a function")
  /\ api_message (Some clientId) queues =
       Drained {| status := 200; body := JObj [] |} (<[clientId := []]> queues)
  /\ queueMessage clientId message now (<[clientId := []]> queues) =
       Normal (<[clientId := [stamped message now]]> queues).
Proof.
  intros Hin Hne Hnone. apply String.eqb_neq in Hne.
  unfold queueMessage, api_message.
  change (default "phantom-vrm-client" (Some clientId)) with clientId.
  rewrite Hnone, Hin, Hne, lookup_insert_eq, insert_insert_eq. auto.
Qed.


Section RouteFacts.
Context {rt : Runtime}.

Local Arguments estimateDuration : simpl never.




End RouteFacts.

(** ** The configuration module *)

Section ConfigFacts.
Context {rt : Runtime}.
Variable T : Type.
Variable path_resolve : string -> string.

(** X20.  [loadConfig] followed by [watchConfig], from the initial state of
    the module.  When the file cannot be read or parsed, [loadConfig] returns
    the defaults, which ask for hot reload, but the module keeps its empty
    configuration and [watchConfig] installs no watcher.  When the file holds
    [null], [loadConfig] returns null and [watchConfig] throws.  Otherwise
    the parsed value is returned and kept, and [watchConfig] installs one
    watcher on the resolved path if [hotReload] is truthy in the file, and
    none if not. *)
Theorem load_then_watch (filePath : string) (w : world) :
  let path := path_resolve filePath in
  let loaded := Config.loadConfig T path_resolve filePath w Config.initial in
  match Config.read_json path w with
  | None =>
      fst loaded = Config.getDefaultConfig
      /\ truthy (get (fst loaded) "hotReload") = true
      /\ Config.config (snd loaded) = JObj []
      /\ Config.watchConfig (snd loaded) = Normal (snd loaded)
  | Some JNull =>
      fst loaded = JNull
      /\ (path <> "" -> exists e, Config.watchConfig (snd loaded) = Throw e)
  | Some parsed =>
      fst loaded = parsed
      /\ Config.config (snd loaded) = parsed
      /\ exists m, Config.watchConfig (snd loaded) = Normal m
                   /\ Config.watchers m =
                        if truthy (get parsed "hotReload") && negb (String.eqb path "")
                        then [path] else []
  end.
Proof.
  intros path loaded. subst loaded. unfold Config.loadConfig. fold path.
  destruct (Config.read_json path w) as [parsed|]; cbn.
  - unfold Config.watchConfig; cbn.
    destruct parsed; cbn; destruct (String.eqb path "") eqn:E; cbn;
      rewrite ?andb_false_r, ?andb_true_r;
      repeat match goal with
             | |- context [if ?b then _ else _] => destruct b; cbn
             end; repeat split; eauto.
    all: intros Hp; apply String.eqb_neq in Hp; congruence.
  - unfold Config.watchConfig; cbn. destruct (String.eqb path ""); auto.
Qed.

Lemma run_without_load (calls : list (Config.call T)) (m : Config.state T) (s : T) :
  existsb Config.is_load calls = false ->
  Config.configPath m = None ->
  Config.watchers m = [] ->
  exists m', Config.run T path_resolve calls (m, s) = Normal (m', s)
             /\ Config.watchers m' = []
             /\ Config.configPath m' = None
             /\ Config.config m' = Config.config m.
Proof.
  revert m. induction calls as [|c rest IH]; intros m Hno Hp Hw.
  - exists m. auto.
  - cbn [existsb] in Hno. apply orb_false_elim in Hno as [Hc Hrest].
    destruct c as [f w| |cb|p w]; [discriminate| | |]; cbn [Config.run Config.step].
    + unfold Config.watchConfig. rewrite Hp. cbn [bind]. apply IH; auto.
    + cbn [bind].
      destruct (IH (Config.onConfigChange cb m) Hrest Hp Hw) as (m' & E & ? & ? & ?).
      exists m'. auto.
    + rewrite Hw. cbn. apply IH; auto.
Qed.

(** X21.  Hot reload needs the module's own [loadConfig].  In a process
    that never calls it (the server and the command line do not: the command
    line reads the file with a function of its own), whatever is done with
    [watchConfig] and [onConfigChange] and however often the file changes, no
    call throws, no watcher is installed, the module's configuration stays
    empty and no registered callback ever runs. *)
Theorem hot_reload_needs_loadConfig (calls : list (Config.call T)) (s : T) :
  existsb Config.is_load calls = false ->
  exists m, Config.run T path_resolve calls (Config.initial, s) = Normal (m, s)
            /\ Config.watchers m = []
            /\ Config.config m = JObj [].
Proof.
  intros Hno.
  destruct (run_without_load calls Config.initial s Hno eq_refl eq_refl)
    as (m & E & Hw & _ & Hc).
  exists m. auto.
Qed.

End ConfigFacts.

(** ** The loopback output *)

(** X22.  The configuration of a [LoopbackOutput] is the given one laid over
    the fixed defaults: every member present in the argument is taken as it
    is, a falsy one (a width of 0, an empty device name) included, and the
    [||] of the constructor decides nothing. *)
Theorem loopback_config_spread (config : gmap string json) :
  Loopback.config (Loopback.constructor config) = config ∪ Loopback.defaults.
Proof.
  unfold Loopback.constructor, Loopback.defaults. cbn [Loopback.config].
  apply map_eq. intros k.
  rewrite !lookup_union.
  destruct (config !! k) as [v|] eqn:E.
  - rewrite !(union_Some_l v); reflexivity.
  - rewrite !(left_id None _).
    repeat match goal with
    | |- (<[?k' := _]> _) !! k = (<[?k' := _]> _) !! k =>
        let Hne := fresh "Hne" in
        destruct (decide (k' = k)) as [<-|Hne];
        [ rewrite !lookup_insert_eq, E; reflexivity
        | rewrite !(lookup_insert_ne _ _ _ _ Hne) ]
    end.
    reflexivity.
Qed.

Section LoopbackFacts.

Local Arguments Loopback.alive : simpl never.

Lemma alive_snoc log ev :
  Loopback.alive (log ++ [ev]) =
    match ev with
    | Loopback.Spawned _ handle => (Loopback.alive log ++ [handle])%list
    | Loopback.Killed handle => filter (fun h => h <> handle) (Loopback.alive log)
    | Loopback.Ran _ => Loopback.alive log
    end.
Proof. unfold Loopback.alive. rewrite fold_left_app. reflexivity. Qed.

Lemma initDevice_alive h this log :
  Loopback.alive (snd (Loopback.initDevice h this log)) = Loopback.alive log.
Proof.
  unfold Loopback.initDevice.
  destruct (Loopback.device_exists h); [apply alive_snoc|].
  destruct (Loopback.config this !! "device") as [[]|]; try apply alive_snoc.
  destruct (Loopback.modprobe h); cbn [snd]; rewrite !alive_snoc; reflexivity.
Qed.

Ltac count_alive :=
  rewrite ?alive_snoc;
  repeat match goal with
         | H : Loopback.alive _ = _ |- _ => rewrite H
         end;
  cbn [app];
  repeat (rewrite ?filter_cons, ?filter_nil; cbn [app];
          repeat match goal with
                 | |- context [decide (?a <> ?b)] =>
                     destruct (decide (a <> b)); try congruence
                 end).

Lemma step_kept all c s :
  In c all ->
  (forall p, Loopback.kill_error (Loopback.host_of c) p = None) ->
  Loopback.kept all s -> Loopback.kept all (Loopback.step c s).
Proof.
  intros Hin Hk. destruct s as [this log|log]; [|auto].
  unfold Loopback.kept at 1, Loopback.settled. cbn [fst snd].
  destruct this as [cfg x b f active]. cbn [Loopback.isActive Loopback.held
    Loopback.xvfbProcess Loopback.browserProcess Loopback.ffmpegProcess].
  intros [Ha Hs]. destruct c as [h|h]; cbn [Loopback.step Loopback.host_of] in *.
  - unfold Loopback.start. cbn [Loopback.isActive].
    destruct active; [cbn; unfold Loopback.settled; cbn; auto|].
    destruct x, b, f; try discriminate. cbn in Ha.
    pose proof (initDevice_alive h {| Loopback.config := cfg; Loopback.xvfbProcess := None;
                  Loopback.browserProcess := None; Loopback.ffmpegProcess := None;
                  Loopback.isActive := false |} log) as Hi.
    destruct (Loopback.initDevice h _ log) as [c log1]. cbn [snd] in Hi. rewrite Ha in Hi.
    unfold Loopback.failed, Loopback.spawn, Loopback.stop, Loopback.kill.
    cbn [Loopback.ffmpegProcess Loopback.browserProcess Loopback.xvfbProcess].
    rewrite ?Hk.
    destruct c, (Loopback.on_spawn h Loopback.Xvfb) eqn:EX,
      (Loopback.on_spawn h Loopback.Chrome) eqn:EC,
      (Loopback.on_spawn h Loopback.FFmpeg) eqn:EF;
      cbn; unfold Loopback.settled; cbn.
    all: first [ split; [count_alive; reflexivity | first [reflexivity | repeat eexists]]
               | split; [eauto | count_alive; cbn; lia] ].
  - unfold Loopback.stop, Loopback.kill.
    cbn [Loopback.ffmpegProcess Loopback.browserProcess Loopback.xvfbProcess].
    rewrite ?Hk.
    destruct active.
    + destruct Hs as (x' & b' & f' & -> & -> & ->). cbn in Ha.
      cbn. unfold Loopback.settled. cbn.
      split; [|reflexivity]. count_alive; reflexivity.
    + destruct x, b, f; try discriminate. cbn. unfold Loopback.settled. cbn. auto.
Qed.

Lemma run_kept all calls : forall s,
  (forall c, In c calls -> In c all) ->
  (forall c p, In c calls -> Loopback.kill_error (Loopback.host_of c) p = None) ->
  Loopback.kept all s -> Loopback.kept all (Loopback.run calls s).
Proof.
  unfold Loopback.run. induction calls as [|c rest IH]; intros s Hall Hk Hs; [exact Hs|].
  cbn [fold_left]. apply IH.
  - intros c' Hc'. apply Hall. right. exact Hc'.
  - intros c' p Hc'. apply Hk. right. exact Hc'.
  - apply step_kept; [apply Hall; left; reflexivity | | exact Hs].
    intros p. apply Hk. left. reflexivity.
Qed.

(** X23.  [start] is all or nothing, and [stop] leaves nothing behind, as
    long as the process lives and SIGTERM can be delivered.  After any
    sequence of [start] and [stop] calls that do not overlap, whatever else
    the host answers (device missing, [modprobe] failing, [spawn] throwing
    for any of the three programs), the children spawned and not yet killed
    are exactly those the object holds: Xvfb, the browser and FFmpeg when the
    output is active, and none at all when it is not; a [start] that fails
    midway with a throw has killed what it had spawned.  A program that is
    not installed is reported by an [error] event nobody listens to: the
    process can end under a [start], only under one that met such a program,
    and what it leaves running are the children that [start] had spawned
    before, two at most. *)
Theorem loopback_all_or_nothing (config : gmap string json) (calls : list Loopback.call) :
  (forall c p, In c calls -> Loopback.kill_error (Loopback.host_of c) p = None) ->
  match Loopback.run calls (Loopback.Running (Loopback.constructor config) []) with
  | Loopback.Running this log =>
      Loopback.alive log = Loopback.held this
      /\ if Loopback.isActive this
         then exists x b f, Loopback.xvfbProcess this = Some x
                            /\ Loopback.browserProcess this = Some b
                            /\ Loopback.ffmpegProcess this = Some f
         else Loopback.held this = []
  | Loopback.Ended log =>
      (exists h p, In (Loopback.Start h) calls /\ Loopback.on_spawn h p = Loopback.Missing)
      /\ (List.length (Loopback.alive log) <= 2)%nat
  end.
Proof.
  intros Hk.
  assert (H0 : Loopback.kept calls (Loopback.Running (Loopback.constructor config) []))
    by (split; reflexivity).
  pose proof (run_kept calls calls _ (fun c H => H) Hk H0) as H.
  destruct (Loopback.run calls _) as [this log|log]; exact H.
Qed.

End LoopbackFacts.

(** ** The command line *)

Lemma list_pair_ind {A} (P : list A -> Prop) :
  P [] -> (forall a, P [a]) ->
  (forall a b l, P l -> P (b :: l) -> P (a :: b :: l)) ->
  forall l, P l.
Proof.
  intros H0 H1 H2 l.
  assert (H : P l /\ forall a, P (a :: l)); [|tauto].
  induction l as [|b l [IH1 IH2]]; [auto|].
  split; [apply IH2 | intros a; apply H2; auto].
Qed.

Lemma eqb_either (arg s t : string) :
  String.eqb arg s || String.eqb arg t = true -> arg = s \/ arg = t.
Proof.
  intros H. apply orb_true_iff in H as [H|H]; apply String.eqb_eq in H; auto.
Qed.

Section CliFacts.
Variable parseInt : string -> number.

(** What one turn of the loop does. *)
Lemma scan_turn (arg : string) (rest : list string) (o : Cli.options) :
  (Cli.scan parseInt (arg :: rest) o = Cli.scan parseInt rest o)
  \/ (exists value rest', rest = value :: rest' /\ value <> "" /\
        (arg = "--config" \/ arg = "-c") /\
        Cli.scan parseInt (arg :: rest) o =
          Cli.scan parseInt rest'
            {| Cli.configPath := value; Cli.port := Cli.port o; Cli.debug := Cli.debug o;
               Cli.openBrowser := Cli.openBrowser o |})
  \/ (exists value rest', rest = value :: rest' /\ value <> "" /\
        (arg = "--port" \/ arg = "-p") /\
        Cli.scan parseInt (arg :: rest) o =
          Cli.scan parseInt rest'
            {| Cli.configPath := Cli.configPath o; Cli.port := Some (parseInt value);
               Cli.debug := Cli.debug o; Cli.openBrowser := Cli.openBrowser o |})
  \/ ((arg = "--debug" \/ arg = "-d") /\
      Cli.scan parseInt (arg :: rest) o =
        Cli.scan parseInt rest
          {| Cli.configPath := Cli.configPath o; Cli.port := Cli.port o; Cli.debug := true;
             Cli.openBrowser := Cli.openBrowser o |})
  \/ (arg = "--no-browser" /\
      Cli.scan parseInt (arg :: rest) o =
        Cli.scan parseInt rest
          {| Cli.configPath := Cli.configPath o; Cli.port := Cli.port o;
             Cli.debug := Cli.debug o; Cli.openBrowser := false |}).
Proof.
  cbn [Cli.scan].
  destruct (String.eqb arg "start" || String.eqb arg "creation"); [auto|].
  destruct ((String.eqb arg "--config" || String.eqb arg "-c") && Cli.has_value rest) eqn:Ec.
  { apply andb_true_iff in Ec as [Ea Ev]. apply eqb_either in Ea.
    destruct rest as [|value rest']; [discriminate|]. cbn in Ev.
    apply negb_true_iff, String.eqb_neq in Ev. right; left. eauto 10. }
  destruct ((String.eqb arg "--port" || String.eqb arg "-p") && Cli.has_value rest) eqn:Ep.
  { apply andb_true_iff in Ep as [Ea Ev]. apply eqb_either in Ea.
    destruct rest as [|value rest']; [discriminate|]. cbn in Ev.
    apply negb_true_iff, String.eqb_neq in Ev. right; right; left. eauto 10. }
  destruct (String.eqb arg "--debug" || String.eqb arg "-d") eqn:Ed.
  { apply eqb_either in Ed. auto 10. }
  destruct (String.eqb arg "--no-browser") eqn:En.
  { apply String.eqb_eq in En. auto 10. }
  auto.
Qed.

Lemma scan_sound (args : list string) : forall (o : Cli.options),
  let o' := Cli.scan parseInt args o in
  (Cli.debug o' = true -> Cli.debug o = true \/ In "--debug" args \/ In "-d" args)
  /\ (Cli.openBrowser o' = Cli.openBrowser o
      \/ (Cli.openBrowser o' = false /\ In "--no-browser" args))
  /\ (Cli.configPath o' = Cli.configPath o
      \/ (Cli.configPath o' <> "" /\ In (Cli.configPath o') args
          /\ (In "--config" args \/ In "-c" args)))
  /\ (Cli.port o' = Cli.port o
      \/ (exists value, Cli.port o' = Some (parseInt value) /\ value <> "" /\ In value args
                        /\ (In "--port" args \/ In "-p" args))).
Proof.
  induction args as [| a | a b l IHl IHbl] using list_pair_ind; intros o.
  - cbn. auto.
  - destruct (scan_turn a [] o)
      as [E | [(v & r & Hr & _) | [(v & r & Hr & _) | [(Ha & E) | (Ha & E)]]]];
      try discriminate; cbn zeta; rewrite E; cbn [Cli.scan Cli.debug Cli.openBrowser
        Cli.configPath Cli.port In]; intuition auto.
  - destruct (scan_turn a (b :: l) o)
      as [E | [(v & r & Hr & Hv & Ha & E) | [(v & r & Hr & Hv & Ha & E) | [(Ha & E) | (Ha & E)]]]];
      cbn zeta; rewrite E.
    + specialize (IHbl o). cbn zeta in IHbl.
      destruct IHbl as (H1 & H2 & H3 & H4). cbn [In].
      repeat split; [ intuition auto | intuition auto | intuition auto | ].
      destruct H4 as [H4 | (value & ? & ? & ? & ?)]; [auto|]. right. exists value. intuition auto.
    + injection Hr as <- <-.
      specialize (IHl {| Cli.configPath := b; Cli.port := Cli.port o; Cli.debug := Cli.debug o;
                         Cli.openBrowser := Cli.openBrowser o |}).
      cbn zeta in IHl. cbn [Cli.debug Cli.openBrowser Cli.configPath Cli.port] in IHl.
      destruct IHl as (H1 & H2 & H3 & H4). cbn [In].
      repeat split; [ intuition auto | intuition auto | | ].
      * right. destruct H3 as [-> | (? & ? & ?)]; intuition auto.
      * destruct H4 as [H4 | (value & ? & ? & ? & ?)]; [auto|]. right. exists value.
        intuition auto.
    + injection Hr as <- <-.
      specialize (IHl {| Cli.configPath := Cli.configPath o; Cli.port := Some (parseInt b);
                         Cli.debug := Cli.debug o; Cli.openBrowser := Cli.openBrowser o |}).
      cbn zeta in IHl. cbn [Cli.debug Cli.openBrowser Cli.configPath Cli.port] in IHl.
      destruct IHl as (H1 & H2 & H3 & H4). cbn [In].
      repeat split; [ intuition auto | intuition auto | intuition auto | ].
      right. destruct H4 as [H4 | (value & ? & ? & ? & ?)].
      * exists b. intuition auto.
      * exists value. intuition auto.
    + specialize (IHbl {| Cli.configPath := Cli.configPath o; Cli.port := Cli.port o;
                          Cli.debug := true; Cli.openBrowser := Cli.openBrowser o |}).
      cbn zeta in IHbl. cbn [Cli.debug Cli.openBrowser Cli.configPath Cli.port] in IHbl.
      destruct IHbl as (H1 & H2 & H3 & H4). cbn [In].
      repeat split; [ intuition auto | intuition auto | intuition auto | ].
      destruct H4 as [H4 | (value & ? & ? & ? & ?)]; [auto|]. right. exists value. intuition auto.
    + specialize (IHbl {| Cli.configPath := Cli.configPath o; Cli.port := Cli.port o;
                          Cli.debug := Cli.debug o; Cli.openBrowser := false |}).
      cbn zeta in IHbl. cbn [Cli.debug Cli.openBrowser Cli.configPath Cli.port] in IHbl.
      destruct IHbl as (H1 & H2 & H3 & H4). cbn [In].
      repeat split; [ intuition auto | | intuition auto | ].
      * right. destruct H2 as [-> | [? ?]]; intuition auto.
      * destruct H4 as [H4 | (value & ? & ? & ? & ?)]; [auto|]. right. exists value.
        intuition auto.
Qed.


Lemma scan_skips (arg : string) (rest : list string) (o : Cli.options) :
  ~ In arg ("start" :: "creation" :: Cli.flags) ->
  Cli.scan parseInt (arg :: rest) o = Cli.scan parseInt rest o.
Proof.
  intros H. cbn [Cli.scan].
  assert (E : forall s, In s ("start" :: "creation" :: Cli.flags) -> String.eqb arg s = false).
  { intros s Hs. apply String.eqb_neq. intros ->. exact (H Hs). }
  rewrite !E by (cbn; tauto). reflexivity.
Qed.

Lemma scan_without_flags (args : list string) (o : Cli.options) :
  (forall arg, In arg args -> ~ In arg Cli.flags) ->
  Cli.scan parseInt args o = o.
Proof.
  induction args as [|arg rest IH]; intros H; [reflexivity|].
  destruct (String.eqb arg "start" || String.eqb arg "creation") eqn:E.
  - cbn [Cli.scan]. rewrite E. apply IH. intros a Ha. apply H. right. exact Ha.
  - rewrite scan_skips.
    + apply IH. intros a Ha. apply H. right. exact Ha.
    + apply orb_false_elim in E as [E1 E2]. apply String.eqb_neq in E1, E2.
      intros [<-|[<-|Hf]]; [congruence | congruence |].
      exact (H arg (or_introl eq_refl) Hf).
Qed.

(** X24.  The options come from the command line through their flags only.
    Whatever the arguments are, after the loop of [startServer]: [debug] is
    on only if it was on before or [--debug] or [-d] occurs; [openBrowser] is
    as before, or off with [--no-browser] among the arguments (the loop never
    turns it on); the configuration path is the default or a non-empty
    argument, given after [--config] or [-c]; the port is unset or
    [parseInt] of a non-empty argument, given after [--port] or [-p]; and a
    command line with none of the seven flags changes nothing. *)
Theorem cli_flags_are_sound (args : list string) (o : Cli.options) :
  let o' := Cli.scan parseInt args o in
  (Cli.debug o' = true -> Cli.debug o = true \/ In "--debug" args \/ In "-d" args)
  /\ (Cli.openBrowser o' = Cli.openBrowser o
      \/ (Cli.openBrowser o' = false /\ In "--no-browser" args))
  /\ (Cli.configPath o' = Cli.configPath o
      \/ (Cli.configPath o' <> "" /\ In (Cli.configPath o') args
          /\ (In "--config" args \/ In "-c" args)))
  /\ (Cli.port o' = Cli.port o
      \/ (exists value, Cli.port o' = Some (parseInt value) /\ value <> "" /\ In value args
                        /\ (In "--port" args \/ In "-p" args)))
  /\ ((forall arg, In arg args -> ~ In arg Cli.flags) -> o' = o).
Proof.
  intros o'. destruct (scan_sound args o) as (H1 & H2 & H3 & H4).
  repeat split; try assumption. apply scan_without_flags.
Qed.

Lemma startServer_passes_on (openCreationMode openBrowser : bool) (args : list string)
    (config : gmap string json) (key : string) :
  ~ In key ["port"; "debug"; "openBrowser"; "browserUrl"] ->
  Cli.startServer parseInt openCreationMode openBrowser args config !! key = config !! key.
Proof.
  intros Hk. cbn [In] in Hk.
  assert (key <> "port" /\ key <> "debug" /\ key <> "openBrowser" /\ key <> "browserUrl")
    as (K1 & K2 & K3 & K4) by (repeat split; intros ->; tauto).
  unfold Cli.startServer, Cli.configure.
  repeat match goal with
         | |- context [if ?b then _ else _] => destruct b
         | |- context [match ?x with _ => _ end] => destruct x
         end;
    rewrite ?lookup_insert_ne by congruence; reflexivity.
Qed.

(** X25.  What the command line does to the configuration object before it
    reaches [createServer].  [debug] is always overwritten with the flag, so
    a [debug] member of the file never counts.  [openBrowser] can only be
    turned on: it is true in creation mode and whenever the loop leaves the
    local [openBrowser] on, and otherwise it is what the file says, so
    [--no-browser] does not switch off a browser the file asks for.  [browserUrl] is set in
    creation mode only.  The port is that of the file unless [--port] gave
    one that [parseInt] reads as a number other than 0 and NaN.  Every
    other member, [tts] among them, is passed on unchanged. *)
Theorem cli_overrides (openCreationMode openBrowser : bool) (args : list string)
    (config : gmap string json) :
  let o := Cli.scan parseInt args
             {| Cli.configPath := "./config.json"; Cli.port := None; Cli.debug := false;
                Cli.openBrowser := openBrowser |} in
  let passed := Cli.startServer parseInt openCreationMode openBrowser args config in
  passed !! "debug" = Some (JBool (Cli.debug o))
  /\ (passed !! "openBrowser" = Some (JBool true)
      \/ (openCreationMode = false /\ Cli.openBrowser o = false
          /\ passed !! "openBrowser" = config !! "openBrowser"))
  /\ passed !! "browserUrl" =
       (if openCreationMode then Some (JStr "?creation") else config !! "browserUrl")
  /\ (passed !! "port" = config !! "port"
      \/ exists n, Cli.port o = Some n /\ is_falsy n = false /\ passed !! "port" = Some (JNum n))
  /\ forall key, ~ In key ["port"; "debug"; "openBrowser"; "browserUrl"] ->
                 passed !! key = config !! key.
Proof.
  intros o passed. subst passed. unfold Cli.startServer. fold o. unfold Cli.configure.
  assert (Hport : forall key, key <> "port" ->
            match Cli.port o with
            | Some n => if is_falsy n then config else <["port" := JNum n]> config
            | None => config
            end !! key = config !! key).
  { intros key Hk. destruct (Cli.port o) as [n|]; [|reflexivity].
    destruct (is_falsy n); [reflexivity|]. apply lookup_insert_ne. congruence. }
  repeat split.
  - destruct openCreationMode; [|destruct (Cli.openBrowser o)];
      rewrite ?lookup_insert_ne by discriminate; apply lookup_insert_eq.
  - destruct openCreationMode.
    + left. rewrite lookup_insert_ne by discriminate. apply lookup_insert_eq.
    + destruct (Cli.openBrowser o); [left; apply lookup_insert_eq|].
      right. repeat split. rewrite lookup_insert_ne by discriminate.
      apply Hport. discriminate.
  - destruct openCreationMode; [apply lookup_insert_eq|].
    destruct (Cli.openBrowser o); rewrite ?lookup_insert_ne by discriminate;
      apply Hport; discriminate.
  - assert (Hp : (match Cli.port o with
                  | Some n => if is_falsy n then config else <["port" := JNum n]> config
                  | None => config
                  end !! "port" = config !! "port")
                 \/ exists n, Cli.port o = Some n /\ is_falsy n = false /\
                      match Cli.port o with
                      | Some n => if is_falsy n then config else <["port" := JNum n]> config
                      | None => config
                      end !! "port" = Some (JNum n)).
    { destruct (Cli.port o) as [n|]; [|auto].
      destruct (is_falsy n) eqn:E; [auto|]. right. exists n.
      rewrite lookup_insert_eq. auto. }
    destruct openCreationMode; [|destruct (Cli.openBrowser o)];
      rewrite ?lookup_insert_ne by discriminate; exact Hp.
  - intros key Hk. apply startServer_passes_on, Hk.
Qed.


End CliFacts.

(** X26.  A server that is given no [tts] settings speaks through Piper.
    [createServer] replaces a missing or falsy [tts] by [{engine: 'piper'}],
    so the engine is the Piper adapter with the default command and model,
    available or not as [which] says: the same adapter as for the [tts] of
    the default configuration, and the one a server started from the command
    line with no configuration file gets, whatever the arguments.  The
    dispatcher alone, called without a configuration, returns the Disabled
    adapter. *)
Theorem server_without_tts_speaks_piper (p : process) :
  let piper :=
    Normal (PiperTTS (JStr "piper") (JStr "ja_JP-test-medium") (which p (JStr "piper")),
            if which p (JStr "piper") then [] else [PiperNotFound]) in
  (forall tts, truthy tts = false -> initial_engine p tts = piper)
  /\ initial_engine p (get Config.getDefaultConfig "tts") = piper
  /\ (forall parseInt openCreationMode openBrowser args,
        initial_engine p
          (Cli.startServer parseInt openCreationMode openBrowser args ∅ !! "tts") = piper)
  /\ createTTSEngine p None = Normal (DummyTTS, []).
Proof.
  cbn zeta.
  assert (H : forall tts, truthy tts = false ->
            initial_engine p tts =
              Normal (PiperTTS (JStr "piper") (JStr "ja_JP-test-medium") (which p (JStr "piper")),
                      if which p (JStr "piper") then [] else [PiperNotFound])).
  { intros tts Ht. unfold initial_engine, js_or. rewrite Ht.
    destruct tts; cbn; destruct (which p (JStr "piper")); reflexivity. }
  repeat split.
  - exact H.
  - cbn. destruct (which p (JStr "piper")); reflexivity.
  - intros. apply H.
    rewrite startServer_passes_on; [reflexivity|]. cbn. intuition discriminate.
Qed.

(** ** The command line and the server *)

Section CliRequests.
Context {rt : Runtime}.

Lemma default_client_can_queue queues : can_queue queues "phantom-vrm-client" = true.
Proof. unfold can_queue. rewrite orb_true_r. reflexivity. Qed.

Lemma speak_answers_default_client ttsEngine audioDir text now o st :
  text <> "" ->
  (exists r, fst (speak ttsEngine audioDir (say text) now o st) = Sent r /\ status r = 200)
  \/ fst (speak ttsEngine audioDir (say text) now o st) = NoReply.
Proof.
  intros Hne. apply String.eqb_neq in Hne.
  unfold speak, say, speak_fallback. cbn [req_text req_clientId req_expression nonempty default].
  rewrite Hne.
  destruct (synthesize ttsEngine text audioDir o (disk st)) as [[r|e|e] w].
  - destruct (queueMessage_returns "phantom-vrm-client"
                [("text", JStr text); ("audioUrl", json_of_url (audioUrl r));
                 ("duration", JNum (duration r))] now (messageQueues st)
                (default_client_can_queue _)) as (q & E & _).
    cbn in E |- *. rewrite E. left. eexists. split; reflexivity.
  - destruct (queueMessage_returns "phantom-vrm-client"
                [("text", JStr text); ("duration", JNum (estimateDuration text))] now
                (messageQueues st) (default_client_can_queue _)) as (q & E & _).
    cbn in E |- *. rewrite E. left. eexists. split; reflexivity.
  - right. reflexivity.
Qed.

(** X27.  The command line never sends a request the server refuses.  When
    the command line sends a request at all, it is [GET /api/status] or a
    [POST] to [/api/speak], [/api/pose] or [/api/expression] whose value is
    the non-empty second argument (a missing or empty one ends the command
    with exit code 1 before any request).  The server then answers it: the
    pose and expression routes with 200 and the value, and [/api/speak] with
    200, whatever the engine does, unless the promise of the engine never
    settles and no answer is sent.  No such request gets a 400, and none
    throws for want of a queue, since the command line sends no client id. *)
Theorem cli_requests_are_accepted (args : list string) (endpoint method : string)
    (body : option (string * string)) :
  Cli.main args = Cli.Request endpoint method body ->
  match body with
  | None => endpoint = "/api/status" /\ method = "GET"
  | Some (field, value) =>
      method = "POST" /\ value <> "" /\
      ((endpoint = "/api/speak" /\ field = "text" /\
        forall ttsEngine audioDir now o st,
          (exists r, fst (speak ttsEngine audioDir (say value) now o st) = Sent r
                     /\ status r = 200)
          \/ fst (speak ttsEngine audioDir (say value) now o st) = NoReply)
       \/ (endpoint = "/api/pose" /\ field = "pose" /\
           forall now queues, exists queues',
             api_pose (posted value) now queues =
               Normal (accepted "pose" (JStr value), queues'))
       \/ (endpoint = "/api/expression" /\ field = "expression" /\
           forall now queues, exists queues',
             api_expression (posted value) now queues =
               Normal (accepted "expression" (JStr value), queues')))
  end.
Proof.
  assert (Hpost : forall field key value now queues, value <> "" ->
            exists queues', queue_value field key (posted value) now queues =
                              Normal (accepted field (JStr value), queues')).
  { intros field key value now queues Hne. apply String.eqb_neq in Hne.
    unfold queue_value, posted. cbn [post_value post_clientId default truthy].
    rewrite Hne. cbn [negb].
    destruct (queueMessage_returns "phantom-vrm-client" [(key, JStr value)] now queues
                (default_client_can_queue _)) as (q & E & _).
    cbn in E |- *. rewrite E. eexists. reflexivity. }
  assert (Harg : forall rest e f m,
            Cli.post_argument rest e f m = Cli.Request endpoint method body ->
            exists value, body = Some (f, value) /\ value <> "" /\ endpoint = e /\ method = "POST").
  { intros rest e f m H. unfold Cli.post_argument in H.
    destruct rest as [|value rest']; [discriminate|].
    destruct (String.eqb value "") eqn:E; [discriminate|].
    apply String.eqb_neq in E. inversion H. eauto. }
  unfold Cli.main. destruct args as [|command rest]; [discriminate|].
  destruct (String.eqb command "" || String.eqb command "--help" || String.eqb command "-h");
    [discriminate|].
  destruct (String.eqb command "creation"); [discriminate|].
  destruct (String.eqb command "speak").
  { intros H. apply Harg in H as (value & -> & Hne & -> & ->).
    split; [reflexivity|]. split; [exact Hne|]. left. split; [reflexivity|].
    split; [reflexivity|]. intros. apply speak_answers_default_client, Hne. }
  destruct (String.eqb command "pose").
  { intros H. apply Harg in H as (value & -> & Hne & -> & ->).
    split; [reflexivity|]. split; [exact Hne|]. right; left. split; [reflexivity|].
    split; [reflexivity|]. intros. apply Hpost, Hne. }
  destruct (String.eqb command "expression").
  { intros H. apply Harg in H as (value & -> & Hne & -> & ->).
    split; [reflexivity|]. split; [exact Hne|]. right; right. split; [reflexivity|].
    split; [reflexivity|]. intros. apply Hpost, Hne. }
  destruct (String.eqb command "status"); [|discriminate].
  intros H. inversion H. auto.
Qed.

End CliRequests.

(** ** The clients [/api/speak] answers *)

Section SpeakAnswers.
Context {rt : Runtime}.

Local Arguments estimateDuration : simpl never.


End SpeakAnswers.

(** ** Closed instances *)

Section MoreExamples.
Local Existing Instance sample_runtime.

Lemma null_audio_only_from_local_adapters_witness :
  exists r, fst (synthesize sample_piper "hi" "/audio" exec_fails empty_world) = Resolved r
            /\ audioUrl r = None /\ duration r = estimateDuration "hi".
Proof.
  set (call := synthesize sample_piper "hi" "/audio" exec_fails empty_world).
  assert (H : call = (Resolved {| audioUrl := None; duration := estimateDuration "hi" |},
                      snd call)) by (vm_compute; reflexivity).
  destruct (null_audio_only_from_local_adapters sample_piper "hi" "/audio" exec_fails
              empty_world (snd call) _ H eq_refl) as [_ Hd].
  eexists. split; [rewrite H; reflexivity|]. split; [reflexivity | exact Hd].
Defined.

Lemma cache_shared_between_adapters_witness :
  exists r2 w2,
    synthesize sample_voicevox "hi" "/audio" quiet
      (snd (synthesize sample_piper "hi" "/audio" (exec_writes wav16) empty_world))
    = (Resolved r2, w2) /\
    audioUrl r2 = Some "/audio/md5(hi).wav" /\
    invocations w2 = [Exec "piper"].
Proof.
  set (first := synthesize sample_piper "hi" "/audio" (exec_writes wav16) empty_world).
  assert (H1 : first = (Resolved {| audioUrl := Some "/audio/md5(hi).wav";
                                    duration := estimateDuration "hi" |}, snd first))
    by (vm_compute; reflexivity).
  destruct (cache_shared_between_adapters sample_piper sample_voicevox "hi" "/audio"
              (exec_writes wav16) quiet empty_world (snd first) _ "/audio/md5(hi).wav"
              H1 eq_refl eq_refl ltac:(discriminate))
    as (r2 & w2 & H & Hu & Hi & _).
  exists r2, w2. split; [exact H|]. split; [exact Hu|].
  rewrite Hi. vm_compute. reflexivity.
Defined.


Lemma voicevox_caches_any_status_witness :
  fst (synthesize sample_voicevox "hi" "/audio"
         (answers 500 (Some "text/html") error_page Written) empty_world) =
    Resolved {| audioUrl := Some "/audio/md5(hi).wav"; duration := estimateDuration "hi" |}
  /\ files (snd (synthesize sample_voicevox "hi" "/audio"
                   (answers 500 (Some "text/html") error_page Written) empty_world))
       !! "/audio/md5(hi).wav" = Some error_page.
Proof.
  destruct (voicevox_caches_any_status (rt := sample_runtime) (JStr "http://localhost:50021")
              (JNum (of_Z 3)) (JNum (of_Z 0)) (JNum (of_Z 1)) (JNum (of_Z 1)) "hi" "/audio"
              empty_world 500 500 (Some "text/html") (Some "text/html") error_page error_page
              eq_refl eq_refl eq_refl (ex_intro _ "hi" eq_refl) eq_refl
              (ex_intro _ tt eq_refl) eq_refl) as (H1 & H2).
  split; [exact H1|].
  refine (eq_trans (f_equal (fun m : gmap string (list byte) => m !! "/audio/md5(hi).wav") H2) _).
  apply lookup_insert_eq.
Defined.

Lemma estimate_floor_threshold_witness :
  estimateDuration "hello!" = of_Z 500 /\ estimateDuration "1234567" <> of_Z 500.
Proof.
  split.
  - apply (estimate_floor_threshold "hello!"); [reflexivity | cbn; lia].
  - intros H. apply (estimate_floor_threshold "1234567") in H; [cbn in H; lia | reflexivity].
Defined.

Lemma file_duration_zero_threshold_witness :
  fst (getAudioDuration "/audio/a.mp3" (stored "/audio/a.mp3" mp3_4)) = of_Z 0
  /\ fst (getAudioDuration "/audio/a.mp3" (stored "/audio/a.mp3" wav16)) <> of_Z 0.
Proof.
  split.
  - pose proof (file_duration_zero_threshold "/audio/a.mp3" (stored "/audio/a.mp3" mp3_4)) as H.
    assert (E : files (stored "/audio/a.mp3" mp3_4) !! "/audio/a.mp3" = Some mp3_4)
      by (vm_compute; reflexivity).
    rewrite E in H. apply H; [reflexivity | cbn; lia].
  - pose proof (file_duration_zero_threshold "/audio/a.mp3" (stored "/audio/a.mp3" wav16)) as H.
    assert (E : files (stored "/audio/a.mp3" wav16) !! "/audio/a.mp3" = Some wav16)
      by (vm_compute; reflexivity).
    rewrite E in H. intros H0. apply H in H0; [cbn in H0; lia | reflexivity].
Defined.

Lemma hosted_credentials_witness :
  exists a ws,
    createOpenAITTS keyed_process (Some (JObj [("apiKey", JStr "sk-config")])) = Normal (a, ws)
    /\ key_of a = Some (JStr "sk-config") /\ ws = [] /\ name a = "openai".
Proof.
  destruct (hosted_credentials OpenAI keyed_process (JObj [("apiKey", JStr "sk-config")])
              ltac:(discriminate)) as (a & ws & H & Hk & Hw & Hn).
  cbn in Hk. rewrite Hk in Hw, Hn. exists a, ws. auto.
Defined.

Lemma dispatch_by_tag_witness :
  is_tag (JStr "piper") (tag_of (PiperTTS (JStr "piper") (JStr "ja_JP-test-medium") false)) = true
  /\ exists command model,
       PiperTTS (JStr "piper") (JStr "ja_JP-test-medium") false =
         PiperTTS command model (which sample_process command).
Proof.
  destruct (dispatch_by_tag sample_process (Some (JObj [("engine", JStr "piper")]))
              (PiperTTS (JStr "piper") (JStr "ja_JP-test-medium") false) [PiperNotFound]
              eq_refl) as (H1 & _ & H3 & _).
  split.
  - destruct H1 as [H1|H1]; [discriminate | exact H1].
  - apply H3. reflexivity.
Defined.

Lemma adapter_constants_guarded_witness :
  truthy (Some (JStr "sk-env")) = true
  /\ truthy_or_fallback (JNum (of_Z 0), JNum (of_Z 0)).
Proof.
  destruct (adapter_constants_guarded keyed_process (Some (JObj [("engine", JStr "openai")]))
              (OpenAITTS (JStr "sk-env") (JStr "tts-1") (JStr "alloy")) [] eq_refl)
    as (Hkey & _).
  destruct (adapter_constants_guarded sample_process
              (Some (JObj [("engine", JStr "voicevox");
                           ("voicevox", JObj [("pitchScale", JNum (of_Z 0))])]))
              (VoicevoxTTS (JStr "http://localhost:50021") (JNum (of_Z 1)) (JNum (of_Z 0))
                 (JNum (of_Z 1)) (JNum (of_Z 1))) [] eq_refl)
    as (_ & Hguarded & _).
  split.
  - exact (Forall_inv Hkey).
  - exact (Forall_inv (Forall_inv_tail (Forall_inv_tail Hguarded))).
Defined.

Lemma cache_append_only_witness :
  files (stored "/audio/md5(other).wav" wav16) ⊆
    files (snd (synthesize sample_piper "hi" "/audio" (exec_writes mp3_4)
                  (stored "/audio/md5(other).wav" wav16))).
Proof.
  exact (cache_append_only sample_piper "hi" "/audio" (exec_writes mp3_4)
           (stored "/audio/md5(other).wav" wav16) eq_refl).
Defined.

Lemma loopback_all_or_nothing_witness :
  match Loopback.run [Loopback.Start willing; Loopback.Stop willing; Loopback.Start willing]
          (Loopback.Running (Loopback.constructor ∅) []) with
  | Loopback.Running this log =>
      Loopback.alive log = Loopback.held this /\ Loopback.isActive this = true
  | Loopback.Ended _ => False
  end.
Proof.
  pose proof (loopback_all_or_nothing ∅
                [Loopback.Start willing; Loopback.Stop willing; Loopback.Start willing]) as H.
  destruct (Loopback.run _ _) as [this log|log] eqn:E.
  - split.
    + apply H. intros c p [<-|[<-|[<-|[]]]]; reflexivity.
    + vm_compute in E. injection E as <- _. reflexivity.
  - vm_compute in E. discriminate E.
Defined.

Lemma queued_message_delivered_once_witness :
  api_message (Some "browser") (<["browser" := [stamped [("pose", JStr "wave")] (of_Z 7)]]> ∅) =
    Drained (delivery [stamped [("pose", JStr "wave")] (of_Z 7)]) (<["browser" := []]> ∅)
  /\ api_message (Some "browser") (<["browser" := []]> ∅) =
       Drained (delivery []) (<["browser" := []]> ∅).
Proof.
  assert (E : queueMessage "browser" [("pose", JStr "wave")] (of_Z 7) ∅ =
              Normal (<["browser" := [stamped [("pose", JStr "wave")] (of_Z 7)]]> ∅))
    by (vm_compute; reflexivity).
  destruct (queued_message_delivered_once "browser" [("pose", JStr "wave")] (of_Z 7) ∅ _ E)
    as (H1 & H2 & _).
  split; [exact H1 | exact H2].
Defined.

Lemma poll_claims_inherited_id_witness :
  api_message (Some "constructor") ∅ =
    Drained {| status := 200; body := JObj [] |} (<["constructor" := []]> ∅)
  /\ returns (queueMessage "constructor" [("pose", JStr "wave")] (of_Z 7)
                (<["constructor" := []]> ∅)).
Proof.
  destruct (poll_claims_inherited_id "constructor" [("pose", JStr "wave")] (of_Z 7) ∅
              eq_refl ltac:(discriminate) eq_refl) as (_ & H2 & H3).
  split; [exact H2 | eexists; exact H3].
Defined.





Lemma load_then_watch_witness :
  fst (Config.loadConfig nat under_srv "config.json" empty_world Config.initial) =
    Config.getDefaultConfig
  /\ Config.watchConfig
       (snd (Config.loadConfig nat under_srv "config.json" empty_world Config.initial)) =
     Normal (snd (Config.loadConfig nat under_srv "config.json" empty_world Config.initial)).
Proof.
  pose proof (load_then_watch nat under_srv "config.json" empty_world) as H.
  cbv zeta in H.
  change (Config.read_json (under_srv "config.json") empty_world) with (@None json) in H.
  destruct H as (H1 & _ & _ & H4). split; [exact H1 | exact H4].
Defined.

Lemma hot_reload_needs_loadConfig_witness :
  exists m,
    Config.run nat under_srv
      [Config.WatchConfig; Config.OnConfigChange count_call;
       Config.FileChanged "/srv/config.json" (stored "/srv/config.json" mp3_4)]
      (Config.initial, 0%nat) = Normal (m, 0%nat)
    /\ Config.watchers m = [].
Proof.
  destruct (hot_reload_needs_loadConfig nat under_srv
              [Config.WatchConfig; Config.OnConfigChange count_call;
               Config.FileChanged "/srv/config.json" (stored "/srv/config.json" mp3_4)]
              0%nat eq_refl) as (m & H & Hw & _).
  exists m. split; [exact H | exact Hw].
Defined.

Lemma cli_flags_are_sound_witness :
  Cli.scan reads_8081 ["start"; "extra"]
    {| Cli.configPath := "./config.json"; Cli.port := None; Cli.debug := false;
       Cli.openBrowser := true |} =
  {| Cli.configPath := "./config.json"; Cli.port := None; Cli.debug := false;
     Cli.openBrowser := true |}.
Proof.
  destruct (cli_flags_are_sound reads_8081 ["start"; "extra"]
              {| Cli.configPath := "./config.json"; Cli.port := None; Cli.debug := false;
                 Cli.openBrowser := true |}) as (_ & _ & _ & _ & H).
  apply H. intros arg [<-|[<-|[]]]; cbn; intuition discriminate.
Defined.

Lemma cli_overrides_witness :
  Cli.startServer reads_8081 false true ["start"; "--no-browser"; "-p"; "8081"]
    {[ "tts" := JObj [("engine", JStr "voicevox")] ]} !! "tts" =
  Some (JObj [("engine", JStr "voicevox")]).
Proof.
  destruct (cli_overrides reads_8081 false true ["start"; "--no-browser"; "-p"; "8081"]
              {[ "tts" := JObj [("engine", JStr "voicevox")] ]}) as (_ & _ & _ & _ & H).
  rewrite H; [reflexivity|]. cbn. intuition discriminate.
Defined.

Lemma server_without_tts_speaks_piper_witness :
  initial_engine sample_process (Some JNull) =
    Normal (PiperTTS (JStr "piper") (JStr "ja_JP-test-medium") false, [PiperNotFound]).
Proof.
  destruct (server_without_tts_speaks_piper sample_process) as (H & _).
  apply H. reflexivity.
Defined.

Lemma cli_requests_are_accepted_witness :
  Cli.main ["speak"; "hello"] = Cli.Request "/api/speak" "POST" (Some ("text", "hello"))
  /\ exists r, fst (speak DummyTTS "/audio" (say "hello") (of_Z 7) quiet fresh_server) = Sent r
               /\ status r = 200.
Proof.
  split; [reflexivity|].
  destruct (cli_requests_are_accepted (rt := sample_runtime) ["speak"; "hello"] "/api/speak"
              "POST" (Some ("text", "hello")) eq_refl)
    as (_ & _ & [(_ & _ & H) | [(E & _) | (E & _)]]); try discriminate.
  destruct (H DummyTTS "/audio" (of_Z 7) quiet fresh_server) as [Hs | Hn]; [exact Hs|].
  vm_compute in Hn. discriminate.
Defined.


(** The browser is not installed: the process ends under [start] and
    leaves Xvfb running. *)
Example loopback_missing_browser_leaks :
  Loopback.run [Loopback.Start without_browser] (Loopback.Running (Loopback.constructor ∅) [])
  = Loopback.Ended [Loopback.Ran "test -e"; Loopback.Spawned Loopback.Xvfb 1]
  /\ Loopback.alive [Loopback.Ran "test -e"; Loopback.Spawned Loopback.Xvfb 1] = [1%nat].
Proof. split; reflexivity. Qed.

End MoreExamples.
